(** * Authentication gate and persisted client state

    A shallow embedding of [middlewares/authMiddleware.js] (the two Express
    middlewares [requireSignIn] and [isAdmin]) and of the persisted-state
    container that the cart context tests exercise.

    JavaScript code is embedded in a small state-and-exception monad: a
    computation takes the world (request, response, console, storage, ...)
    and gives back a completion (normal value or thrown error) and the new
    world. *)

From Stdlib Require Import ZArith String Ascii List Bool Lia.
From Stdlib Require Import Decimal DecimalString DecimalFacts DecimalPos DecimalZ.
From stdpp Require Import base option list strings gmap fin_maps.

Local Open Scope string_scope.
Local Open Scope list_scope.
Local Open Scope Z_scope.

(** ** JavaScript values, errors and completions *)

Module Js.

(** The errors the modelled code can see.  The payload is the message. *)
Inductive JsError : Type :=
| TypeError (msg : string)
| SyntaxError (msg : string)
| JsonWebTokenError (msg : string)
| TokenExpiredError (msg : string)
| NotBeforeError (msg : string)
| MongooseError (msg : string)
| GenericError (msg : string).

(** Primitive values as they occur in response bodies and in the role
    field of a user document. *)
Inductive JsVal : Type :=
| JUndefined
| JNull
| JBool (b : bool)
| JNum (n : Z)
| JStr (s : string)
| JErr (e : JsError).

(** An object literal: its own properties in insertion order. *)
Definition JsObject : Type := list (string * JsVal).

#[global] Instance JsError_eq_dec : EqDecision JsError.
Proof. solve_decision. Defined.

#[global] Instance JsVal_eq_dec : EqDecision JsVal.
Proof. solve_decision. Defined.

(** [a === b] on the primitive values above. *)
Definition strict_eq (a b : JsVal) : bool := bool_decide (a = b).

(** [obj.key] on an object literal. *)
Fixpoint get_prop (key : string) (o : JsObject) : JsVal :=
  match o with
  | [] => JUndefined
  | (k, v) :: o' => if String.eqb k key then v else get_prop key o'
  end.

(** How a statement ends: normally with a value, or by throwing. *)
Inductive Completion (A : Type) : Type :=
| Normal (a : A)
| Throw (e : JsError).
Arguments Normal {A} a.
Arguments Throw {A} e.

(** A computation over a world of type [W]. *)
Definition M (W A : Type) : Type := W -> Completion A * W.

Definition ret {W A} (a : A) : M W A := fun w => (Normal a, w).

Definition bind {W A B} (m : M W A) (k : A -> M W B) : M W B :=
  fun w =>
    match m w with
    | (Normal a, w') => k a w'
    | (Throw e, w') => (Throw e, w')
    end.

Definition throw {W A} (e : JsError) : M W A := fun w => (Throw e, w).

(** [try { body } catch (error) { handler error }] *)
Definition try_catch {W A} (body : M W A) (handler : JsError -> M W A)
  : M W A :=
  fun w =>
    match body w with
    | (Normal a, w') => (Normal a, w')
    | (Throw e, w') => handler e w'
    end.

Definition gets {W A} (f : W -> A) : M W A := fun w => (Normal (f w), w).
Definition modify {W} (f : W -> W) : M W unit := fun w => (Normal tt, f w).

(** Lifting the result of an external call into the monad. *)
Definition lift {W A} (c : Completion A) : M W A := fun w => (c, w).

(** Running a computation from a world: how it completes, and the world
    it leaves. *)
Definition completion_of {W A} (m : M W A) (w : W) : Completion A := fst (m w).
Definition world_after {W A} (m : M W A) (w : W) : W := snd (m w).

(** [s.startsWith(p)] *)
Fixpoint startsWith (p s : string) : bool :=
  match p, s with
  | EmptyString, _ => true
  | String a p', String b s' => if Ascii.eqb a b then startsWith p' s' else false
  | String _ _, EmptyString => false
  end.

(** [s.substring(n)]: the part of [s] from index [n] on. *)
Fixpoint substring_from (n : nat) (s : string) : string :=
  match n, s with
  | O, _ => s
  | S n', String _ s' => substring_from n' s'
  | S _, EmptyString => EmptyString
  end.

(** Truthiness of a string: only the empty string is falsy. *)
Definition string_truthy (s : string) : bool :=
  match s with EmptyString => false | String _ _ => true end.

End Js.

Declare Scope js_scope.
Delimit Scope js_scope with js.
Notation "'let*' x ':=' m 'in' k" := (Js.bind m (fun x => k))
  (at level 10, x name, m at level 100, k at level 200,
   format "'[v' 'let*'  x  :=  m  'in' '/' k ']'") : js_scope.

(** ** AuthGate: [requireSignIn] and [isAdmin] *)

Module AuthGate.
Import Js.
Local Open Scope js_scope.

(** The decoded payload of a token.  [_id] is the subject id that
    [isAdmin] reads; [iat] and [exp] are the issue and expiry times. *)
Record Claims : Type := mkClaims {
  _id : string;
  iat : Z;
  exp : Z
}.

(** A user document, as far as the middleware looks at it. *)
Record User : Type := mkUser {
  user_id : string;
  name : string;
  role : JsVal
}.

(** [req]: [headers.authorization] is a string or undefined; [user] is
    undefined until [requireSignIn] assigns it. *)
Record Request : Type := mkRequest {
  authorization : option string;
  user : option Claims
}.

(** [res]: [status(c)] stores the code, [send(body)] emits a response
    with the code stored at that moment. *)
Record Response : Type := mkResponse {
  statusCode : Z;
  sent : list (Z * JsObject)
}.

Inductive LogEntry : Type :=
| LogStr (s : string)
| LogErr (e : JsError).

Record World : Type := mkWorld {
  req : Request;
  res : Response;
  console : list LogEntry;
  next_calls : nat;
  verify_calls : list (string * option string)
}.

(** The collaborators the middleware imports: [JWT.verify] of the
    jsonwebtoken package, [process.env.JWT_SECRET], and
    [userModel.findById].  [findById] resolves to a document or to null
    ([Normal None]), or rejects. *)
Record Env : Type := mkEnv {
  jwt_verify : string -> option string -> Completion Claims;
  JWT_SECRET : option string;
  findById : string -> Completion (option User)
}.

Definition fresh_response : Response :=
  {| statusCode := 200; sent := [] |}.

(** The world at the arrival of a request. *)
Definition arrival (r : Request) : World :=
  {| req := r; res := fresh_response; console := [];
     next_calls := 0%nat; verify_calls := [] |}.

Definition console_log (e : LogEntry) : M World unit :=
  modify (fun w =>
    {| req := req w; res := res w; console := console w ++ [e];
       next_calls := next_calls w; verify_calls := verify_calls w |}).

Definition res_status (code : Z) : M World unit :=
  modify (fun w =>
    {| req := req w;
       res := {| statusCode := code; sent := sent (res w) |};
       console := console w;
       next_calls := next_calls w; verify_calls := verify_calls w |}).

Definition res_send (body : JsObject) : M World unit :=
  modify (fun w =>
    {| req := req w;
       res := {| statusCode := statusCode (res w);
                 sent := sent (res w) ++ [(statusCode (res w), body)] |};
       console := console w;
       next_calls := next_calls w; verify_calls := verify_calls w |}).

(** [req.user = decode] *)
Definition set_req_user (c : Claims) : M World unit :=
  modify (fun w =>
    {| req := {| authorization := authorization (req w); user := Some c |};
       res := res w; console := console w;
       next_calls := next_calls w; verify_calls := verify_calls w |}).

(** [next()]: the router's continuation.  The router runs the following
    handler of the route and catches its faults itself, so the call
    comes back normally; the world counts the calls. *)
Definition next : M World unit :=
  modify (fun w =>
    {| req := req w; res := res w; console := console w;
       next_calls := S (next_calls w); verify_calls := verify_calls w |}).

(** [JWT.verify(token, secret)]; each call is recorded. *)
Definition JWT_verify (E : Env) (token : string) (secret : option string)
  : M World Claims :=
  let* _ := modify (fun w =>
        {| req := req w; res := res w; console := console w;
           next_calls := next_calls w;
           verify_calls := verify_calls w ++ [(token, secret)] |}) in
  lift (jwt_verify E token secret).

(** [authHeader.startsWith('Bearer ') ? authHeader.substring('Bearer '.length) : authHeader] *)
Definition extract_token (authHeader : string) : string :=
  if startsWith "Bearer " authHeader
  then substring_from (String.length "Bearer ") authHeader
  else authHeader.

Definition missing_token_body : JsObject :=
  [("success", JBool false); ("message", JStr "Unauthorized: Missing token")].

Definition invalid_token_body : JsObject :=
  [("success", JBool false); ("message", JStr "Unauthorized: Invalid token")].

(** [!authHeader]: undefined and the empty string are falsy. *)
Definition header_falsy (authHeader : option string) : bool :=
  match authHeader with
  | None => true
  | Some h => negb (string_truthy h)
  end.

Definition requireSignIn (E : Env) : M World unit :=
  try_catch
    (let* authHeader := gets (fun w => authorization (req w)) in
     if header_falsy authHeader then
       let* _ := console_log (LogStr "Missing authorization token") in
       let* _ := res_status 401 in
       res_send missing_token_body
     else
       let token := extract_token (default "" authHeader) in
       let* decode := JWT_verify E token (JWT_SECRET E) in
       let* _ := set_req_user decode in
       next)
    (fun error =>
       let* _ := console_log (LogErr error) in
       let* _ := res_status 401 in
       res_send invalid_token_body).

Definition forbidden_body : JsObject :=
  [("success", JBool false); ("message", JStr "UnAuthorized Access")].

Definition admin_error_body (error : JsError) : JsObject :=
  [("success", JBool false); ("error", JErr error);
   ("message", JStr "Error in admin middleware")].

(** [req.user._id]: reading a property of undefined throws. *)
Definition req_user_id : M World string :=
  let* u := gets (fun w => user (req w)) in
  match u with
  | Some c => ret (_id c)
  | None =>
      throw (TypeError "Cannot read properties of undefined (reading '_id')")
  end.

(** [user.role]: reading a property of null throws. *)
Definition user_role (u : option User) : M World JsVal :=
  match u with
  | Some doc => ret (role doc)
  | None =>
      throw (TypeError "Cannot read properties of null (reading 'role')")
  end.

Definition isAdmin (E : Env) : M World unit :=
  try_catch
    (let* id := req_user_id in
     let* user := lift (findById E id) in
     let* r := user_role user in
     if negb (strict_eq r (JNum 1)) then
       let* _ := res_status 401 in
       res_send forbidden_body
     else
       next)
    (fun error =>
       let* _ := console_log (LogErr error) in
       let* _ := res_status 401 in
       res_send (admin_error_body error)).

(** The world [isAdmin] leaves when its catch clause has run on [e]. *)
Definition admin_error_world (w : World) (e : JsError) : World :=
  {| req := req w;
     res := {| statusCode := 401;
               sent := sent (res w) ++ [(401, admin_error_body e)] |};
     console := console w ++ [LogErr e];
     next_calls := next_calls w;
     verify_calls := verify_calls w |}.

(** A route guarded by a list of middlewares: each one runs on the world
    its predecessor left, and only if the predecessor called [next]. *)
Fixpoint run_chain (hs : list (M World unit)) (w : World)
  : Completion unit * World :=
  match hs with
  | [] => (Normal tt, w)
  | h :: hs' =>
      match h w with
      | (Normal _, w') =>
          if Nat.ltb (next_calls w) (next_calls w')
          then run_chain hs' w'
          else (Normal tt, w')
      | (Throw e, w') => (Throw e, w')
      end
  end.

(** An admin-gated route: [requireSignIn, isAdmin]. *)
Definition admin_route (E : Env) : World -> Completion unit * World :=
  run_chain [requireSignIn E; isAdmin E].

(** The message of a response body. *)
Definition body_message (b : JsObject) : JsVal := get_prop "message" b.

(** Whether a request carries a credential that the verification
    primitive accepts: a non-empty header whose token verifies. *)
Definition credential_accepted (E : Env) (r : Request) : bool :=
  match authorization r with
  | None => false
  | Some h =>
      string_truthy h &&
      match jwt_verify E (extract_token h) (JWT_SECRET E) with
      | Normal _ => true
      | Throw _ => false
      end
  end.

(** The two ways a header carries a token: behind the scheme word, or
    bare. *)
Definition carries (h token : string) : Prop :=
  h = "Bearer " +:+ token \/ (h = token /\ startsWith "Bearer " token = false).

(** A sample environment for the examples below.  The verification
    primitive accepts the token [good] under the secret of the process
    and decodes it to the subject [u1]; the store knows an administrator
    [u1] and a customer [u2], has no record for other ids, and is out of
    reach for the id [down]. *)
Definition sample_claims (id : string) : Claims :=
  {| _id := id; iat := 1700000000; exp := 1700604800 |}.

Definition sample_verify (token : string) (secret : option string)
  : Completion Claims :=
  match secret with
  | None => Throw (GenericError "secretOrPrivateKey must have a value")
  | Some k =>
      if String.eqb k "s3cret" then
        if String.eqb token "good" then Normal (sample_claims "u1")
        else if String.eqb token "good2" then Normal (sample_claims "u2")
        else if String.eqb token "good3" then Normal (sample_claims "u3")
        else if String.eqb token "gooddown" then Normal (sample_claims "down")
        else if String.eqb token "old" then Throw (TokenExpiredError "jwt expired")
        else Throw (JsonWebTokenError "jwt malformed")
      else Throw (JsonWebTokenError "invalid signature")
  end.

Definition sample_findById (id : string) : Completion (option User) :=
  if String.eqb id "u1" then
    Normal (Some {| user_id := "u1"; name := "Admin"; role := JNum 1 |})
  else if String.eqb id "u2" then
    Normal (Some {| user_id := "u2"; name := "Customer"; role := JNum 0 |})
  else if String.eqb id "down" then
    Throw (MongooseError "buffering timed out")
  else Normal None.

Definition sample_env : Env :=
  {| jwt_verify := sample_verify;
     JWT_SECRET := Some "s3cret";
     findById := sample_findById |}.

(** Whether [isAdmin] finds what it needs to let a request through:
    claims on the request, a record for their subject, and the role that
    is strictly the number 1. *)
Definition isAdmin_admits (E : Env) (w : World) : bool :=
  match user (req w) with
  | None => false
  | Some c =>
      match findById E (_id c) with
      | Normal (Some u) => strict_eq (role u) (JNum 1)
      | Normal None => false
      | Throw _ => false
      end
  end.

(** Whether a request gets through both guards of an admin-gated route. *)
Definition route_admits (E : Env) (r : Request) : bool :=
  match authorization r with
  | None => false
  | Some h =>
      string_truthy h &&
      match jwt_verify E (extract_token h) (JWT_SECRET E) with
      | Normal c =>
          match findById E (_id c) with
          | Normal (Some u) => strict_eq (role u) (JNum 1)
          | Normal None => false
          | Throw _ => false
          end
      | Throw _ => false
      end
  end.

End AuthGate.

(** ** JSON text: the serialized form of persisted state

    [JSON.stringify] and [JSON.parse] on the values a cart holds: null,
    booleans, integers, strings, arrays and objects.  Characters are code
    units below 256; numbers are integers. *)

Module Json.

#[local] Unset Elimination Schemes.

Inductive Json : Type :=
| JsonNull
| JsonBool (b : bool)
| JsonNum (n : Z)
| JsonStr (s : string)
| JsonArr (xs : list Json)
| JsonObj (members : list (string * Json)).

#[local] Set Elimination Schemes.

Definition dquote : ascii := "034"%char.
Definition backslash : ascii := "092"%char.

Definition hex_digit (n : N) : ascii :=
  if (n <? 10)%N then ascii_of_N (48 + n) else ascii_of_N (87 + n).

(** The escape of one character inside a string literal. *)
Definition escape_char (c : ascii) : string :=
  if Ascii.eqb c dquote then String backslash (String dquote EmptyString)
  else if Ascii.eqb c backslash then String backslash (String backslash EmptyString)
  else
    let n := N_of_ascii c in
    if (n =? 8)%N then String backslash "b"
    else if (n =? 12)%N then String backslash "f"
    else if (n =? 10)%N then String backslash "n"
    else if (n =? 13)%N then String backslash "r"
    else if (n =? 9)%N then String backslash "t"
    else if (n <? 32)%N then
      String backslash
        (String "u" (String "0" (String "0"
           (String (hex_digit (n / 16)) (String (hex_digit (n mod 16)) EmptyString)))))
    else String c EmptyString.

Fixpoint escape (s : string) : string :=
  match s with
  | EmptyString => EmptyString
  | String c s' => escape_char c +:+ escape s'
  end.

Definition quote (s : string) : string :=
  String dquote (escape s +:+ String dquote EmptyString).

Definition stringify_num (n : Z) : string :=
  DecimalString.NilZero.string_of_int (Z.to_int n).

(** [JSON.stringify(v)] without indentation. *)
Fixpoint stringify (v : Json) : string :=
  match v with
  | JsonNull => "null"
  | JsonBool true => "true"
  | JsonBool false => "false"
  | JsonNum n => stringify_num n
  | JsonStr s => quote s
  | JsonArr xs =>
      "[" +:+
      (fix elements (l : list Json) : string :=
         match l with
         | [] => ""
         | x :: l' =>
             match l' with
             | [] => stringify x
             | _ :: _ => stringify x +:+ "," +:+ elements l'
             end
         end) xs +:+ "]"
  | JsonObj ms =>
      "{" +:+
      (fix members (l : list (string * Json)) : string :=
         match l with
         | [] => ""
         | (k, x) :: l' =>
             match l' with
             | [] => quote k +:+ ":" +:+ stringify x
             | _ :: _ => quote k +:+ ":" +:+ stringify x +:+ "," +:+ members l'
             end
         end) ms +:+ "}"
  end.

(** The text between the brackets of an array, and between the braces
    of an object, as [stringify] writes them. *)
Definition stringify_elements : list Json -> string :=
  fix elements (l : list Json) : string :=
    match l with
    | [] => ""
    | x :: l' =>
        match l' with
        | [] => stringify x
        | _ :: _ => stringify x +:+ "," +:+ elements l'
        end
    end.

Definition stringify_members : list (string * Json) -> string :=
  fix members (l : list (string * Json)) : string :=
    match l with
    | [] => ""
    | (k, x) :: l' =>
        match l' with
        | [] => quote k +:+ ":" +:+ stringify x
        | _ :: _ => quote k +:+ ":" +:+ stringify x +:+ "," +:+ members l'
        end
    end.

Definition is_ws (c : ascii) : bool :=
  let n := N_of_ascii c in
  ((n =? 32) || (n =? 9) || (n =? 10) || (n =? 13))%N.

Fixpoint skip_ws (s : string) : string :=
  match s with
  | EmptyString => EmptyString
  | String c s' => if is_ws c then skip_ws s' else s
  end.

Definition is_digit (c : ascii) : bool :=
  let n := N_of_ascii c in ((48 <=? n) && (n <=? 57))%N.

(** The longest prefix of digits, and what follows it. *)
Fixpoint span_digits (s : string) : string * string :=
  match s with
  | EmptyString => (EmptyString, EmptyString)
  | String c s' =>
      if is_digit c
      then let (d, r) := span_digits s' in (String c d, r)
      else (EmptyString, s)
  end.

Definition starts_digit (s : string) : bool :=
  match s with
  | String c _ => is_digit c
  | EmptyString => false
  end.

(** Where a fraction or an exponent would start. *)
Definition starts_fraction (s : string) : bool :=
  match s with
  | String c _ => Ascii.eqb c "." || Ascii.eqb c "e" || Ascii.eqb c "E"
  | EmptyString => false
  end.

Definition leading_zero (digits : string) : bool :=
  match digits with
  | String c (String _ _) => Ascii.eqb c "0"
  | _ => false
  end.

(** An integer literal: an optional minus sign, then digits without a
    superfluous leading zero.  Fractions and exponents are not read. *)
Definition parse_number (s : string) : option (Z * string) :=
  let '(neg, s1) :=
    match s with
    | String c s' => if Ascii.eqb c "-" then (true, s') else (false, s)
    | EmptyString => (false, s)
    end in
  let '(digits, rest) := span_digits s1 in
  match digits with
  | EmptyString => None
  | String _ _ =>
      if leading_zero digits || starts_fraction rest then None
      else
        match DecimalString.NilEmpty.uint_of_string digits with
        | Some u =>
            Some (Z.of_int (if neg then Decimal.Neg u else Decimal.Pos u), rest)
        | None => None
        end
  end.

Definition hex_value (c : ascii) : option N :=
  let n := N_of_ascii c in
  if ((48 <=? n) && (n <=? 57))%N then Some (n - 48)%N
  else if ((97 <=? n) && (n <=? 102))%N then Some (n - 87)%N
  else if ((65 <=? n) && (n <=? 70))%N then Some (n - 55)%N
  else None.

Definition hex4 (a b c d : ascii) : option N :=
  match hex_value a, hex_value b, hex_value c, hex_value d with
  | Some x, Some y, Some z, Some t => Some (((x * 16 + y) * 16 + z) * 16 + t)%N
  | _, _, _, _ => None
  end.

(** The character a one-letter escape stands for. *)
Definition simple_escape (e : ascii) : option ascii :=
  if Ascii.eqb e dquote then Some dquote
  else if Ascii.eqb e backslash then Some backslash
  else if Ascii.eqb e "/" then Some "/"%char
  else if Ascii.eqb e "b" then Some (ascii_of_N 8)
  else if Ascii.eqb e "f" then Some (ascii_of_N 12)
  else if Ascii.eqb e "n" then Some (ascii_of_N 10)
  else if Ascii.eqb e "r" then Some (ascii_of_N 13)
  else if Ascii.eqb e "t" then Some (ascii_of_N 9)
  else None.

Definition cons_char (c : ascii) (r : option (string * string))
  : option (string * string) :=
  match r with
  | Some (str, rest) => Some (String c str, rest)
  | None => None
  end.

(** A string literal after its opening quote: the text up to the closing
    quote, unescaped, and what follows the closing quote. *)
Fixpoint parse_string_body (s : string) : option (string * string) :=
  match s with
  | EmptyString => None
  | String c s' =>
      if Ascii.eqb c dquote then Some (EmptyString, s')
      else if Ascii.eqb c backslash then
        match s' with
        | EmptyString => None
        | String e s'' =>
            match simple_escape e with
            | Some ch => cons_char ch (parse_string_body s'')
            | None =>
                if Ascii.eqb e "u" then
                  match s'' with
                  | String h1 (String h2 (String h3 (String h4 r))) =>
                      match hex4 h1 h2 h3 h4 with
                      | Some n =>
                          if (n <? 256)%N
                          then cons_char (ascii_of_N n) (parse_string_body r)
                          else None
                      | None => None
                      end
                  | _ => None
                  end
                else None
            end
        end
      else if (N_of_ascii c <? 32)%N then None
      else cons_char c (parse_string_body s')
  end.

(** [expect word s v]: [s] goes on with [word]. *)
Definition expect (word s : string) (v : Json) : option (Json * string) :=
  if Js.startsWith word s
  then Some (v, Js.substring_from (String.length word) s)
  else None.

(** The characters a value can begin with. *)
Definition value_start (c : ascii) : bool :=
  is_digit c || Ascii.eqb c "-" || Ascii.eqb c "n" || Ascii.eqb c "t"
  || Ascii.eqb c "f" || Ascii.eqb c dquote || Ascii.eqb c "["
  || Ascii.eqb c "{".

(** Whether [s] begins with the closing character [c]. *)
Definition closes (c : ascii) (s : string) : bool :=
  match s with
  | String d _ => Ascii.eqb d c
  | EmptyString => false
  end.

(** Assigning a property: an existing key keeps its place. *)
Fixpoint obj_set (k : string) (v : Json) (o : list (string * Json))
  : list (string * Json) :=
  match o with
  | [] => [(k, v)]
  | (k', v') :: o' =>
      if String.eqb k' k then (k', v) :: o' else (k', v') :: obj_set k v o'
  end.

Definition obj_of_members (ms : list (string * Json)) : list (string * Json) :=
  fold_left (fun o kv => obj_set (fst kv) (snd kv) o) ms [].

Fixpoint parse_value (fuel : nat) (s : string) : option (Json * string) :=
  match fuel with
  | O => None
  | S fuel' =>
      match skip_ws s with
      | EmptyString => None
      | String c s' =>
          if Ascii.eqb c "n" then expect "ull" s' JsonNull
          else if Ascii.eqb c "t" then expect "rue" s' (JsonBool true)
          else if Ascii.eqb c "f" then expect "alse" s' (JsonBool false)
          else if Ascii.eqb c dquote then
            match parse_string_body s' with
            | Some (str, r) => Some (JsonStr str, r)
            | None => None
            end
          else if Ascii.eqb c "[" then
            if closes "]" (skip_ws s')
            then Some (JsonArr [], Js.substring_from 1 (skip_ws s'))
            else
              match parse_elements fuel' s' with
              | Some (xs, r) => Some (JsonArr xs, r)
              | None => None
              end
          else if Ascii.eqb c "{" then
            if closes "}" (skip_ws s')
            then Some (JsonObj [], Js.substring_from 1 (skip_ws s'))
            else
              match parse_members fuel' s' with
              | Some (ms, r) => Some (JsonObj (obj_of_members ms), r)
              | None => None
              end
          else
            match parse_number (String c s') with
            | Some (n, r) => Some (JsonNum n, r)
            | None => None
            end
      end
  end
with parse_elements (fuel : nat) (s : string) : option (list Json * string) :=
  match fuel with
  | O => None
  | S fuel' =>
      match parse_value fuel' s with
      | Some (v, r) =>
          match skip_ws r with
          | String c r' =>
              if Ascii.eqb c "," then
                match parse_elements fuel' r' with
                | Some (vs, r'') => Some (v :: vs, r'')
                | None => None
                end
              else if Ascii.eqb c "]" then Some ([v], r')
              else None
          | EmptyString => None
          end
      | None => None
      end
  end
with parse_members (fuel : nat) (s : string)
  : option (list (string * Json) * string) :=
  match fuel with
  | O => None
  | S fuel' =>
      match skip_ws s with
      | String q s1 =>
          if Ascii.eqb q dquote then
            match parse_string_body s1 with
            | Some (k, r) =>
                match skip_ws r with
                | String c r1 =>
                    if Ascii.eqb c ":" then
                      match parse_value fuel' r1 with
                      | Some (v, r2) =>
                          match skip_ws r2 with
                          | String d r3 =>
                              if Ascii.eqb d "," then
                                match parse_members fuel' r3 with
                                | Some (ms, r4) => Some ((k, v) :: ms, r4)
                                | None => None
                                end
                              else if Ascii.eqb d "}" then Some ([(k, v)], r3)
                              else None
                          | EmptyString => None
                          end
                      | None => None
                      end
                    else None
                | EmptyString => None
                end
            | None => None
            end
          else None
      | EmptyString => None
      end
  end.

(** The fuel that reading a value back takes at most. *)
Fixpoint weight (v : Json) : nat :=
  match v with
  | JsonArr xs =>
      S ((fix elements (l : list Json) : nat :=
            match l with
            | [] => O
            | x :: l' => S (weight x + elements l')
            end) xs)
  | JsonObj ms =>
      S ((fix members (l : list (string * Json)) : nat :=
            match l with
            | [] => O
            | (_, x) :: l' => S (weight x + members l')
            end) ms)
  | _ => 1%nat
  end.

Definition weight_elements : list Json -> nat :=
  fix elements (l : list Json) : nat :=
    match l with
    | [] => O
    | x :: l' => S (weight x + elements l')
    end.

Definition weight_members : list (string * Json) -> nat :=
  fix members (l : list (string * Json)) : nat :=
    match l with
    | [] => O
    | (_, x) :: l' => S (weight x + members l')
    end.

Fixpoint distinct (keys : list string) : bool :=
  match keys with
  | [] => true
  | k :: keys' => negb (existsb (String.eqb k) keys') && distinct keys'
  end.

(** A value as an object of the language can be: within every object the
    keys are pairwise distinct. *)
Fixpoint well_formed (v : Json) : bool :=
  match v with
  | JsonArr xs =>
      (fix elements (l : list Json) : bool :=
         match l with
         | [] => true
         | x :: l' => well_formed x && elements l'
         end) xs
  | JsonObj ms =>
      distinct (map fst ms) &&
      (fix members (l : list (string * Json)) : bool :=
         match l with
         | [] => true
         | (_, x) :: l' => well_formed x && members l'
         end) ms
  | _ => true
  end.

Definition well_formed_elements : list Json -> bool :=
  fix elements (l : list Json) : bool :=
    match l with
    | [] => true
    | x :: l' => well_formed x && elements l'
    end.

Definition well_formed_members : list (string * Json) -> bool :=
  fix members (l : list (string * Json)) : bool :=
    match l with
    | [] => true
    | (_, x) :: l' => well_formed x && members l'
    end.

(** The reader gives [v] back from the text written for [v], whatever
    follows it, as long as what follows does not go on like a number. *)
Definition reads_back (v : Json) : Prop :=
  forall (fuel : nat) (rest : string),
    (weight v <= fuel)%nat ->
    starts_digit rest = false ->
    starts_fraction rest = false ->
    parse_value fuel (stringify v +:+ rest) = Some (v, rest).

(** [JSON.parse(text)]: [None] stands for the SyntaxError it throws. *)
Definition parse (text : string) : option Json :=
  match parse_value (2 * String.length text + 2) text with
  | Some (v, rest) =>
      match skip_ws rest with
      | EmptyString => Some v
      | String _ _ => None
      end
  | None => None
  end.

End Json.

(** ** PersistedStateStore: one named slot of state kept in durable storage

    The container itself (the cart and auth context providers) is not
    among the sources; only tests that drive it are.  Its operations are
    therefore modelled from the specification, section 4.2. *)

Module PersistedStateStore.
Import Js.
Local Open Scope js_scope.

(** Modelled from the spec: the serialized form of a slot of type [T],
    which the missing provider fixes: the empty value of the type, the
    writer, and the reader, which gives [None] on text that is not
    parseable as the expected structure. *)
Class Codec (T : Type) : Type := mkCodec {
  empty_value : T;
  serialize : T -> string;
  deserialize : string -> option T
}.

(** The calls of the key-value storage interface:
    [get(key)], [set(key, string)], [remove(key)]. *)
Inductive StorageOp : Type :=
| GetItem (key : string)
| SetItem (key value : string)
| RemoveItem (key : string).

(** Durable storage: what it holds, and the calls issued to it. *)
Record Storage : Type := mkStorage {
  items : gmap string string;
  issued : list StorageOp
}.

Definition Observer : Type := nat.

(** The running application around one store: durable storage, the error
    log, the in-memory value, the registered observers and the
    notifications delivered so far. *)
Record World (T : Type) : Type := mkWorld {
  storage : Storage;
  console_error : list JsError;
  memory : T;
  observers : list Observer;
  delivered : list (Observer * T)
}.
Arguments mkWorld {T}.
Arguments storage {T}.
Arguments console_error {T}.
Arguments memory {T}.
Arguments observers {T}.
Arguments delivered {T}.

Definition storage_get {T} (key : string) : M (World T) (option string) :=
  fun w =>
    (Normal (items (storage w) !! key),
     {| storage := {| items := items (storage w);
                      issued := issued (storage w) ++ [GetItem key] |};
        console_error := console_error w; memory := memory w;
        observers := observers w; delivered := delivered w |}).

Definition storage_set {T} (key value : string) : M (World T) unit :=
  modify (fun w =>
    {| storage := {| items := <[key := value]> (items (storage w));
                     issued := issued (storage w) ++ [SetItem key value] |};
       console_error := console_error w; memory := memory w;
       observers := observers w; delivered := delivered w |}).

Definition storage_remove {T} (key : string) : M (World T) unit :=
  modify (fun w =>
    {| storage := {| items := delete key (items (storage w));
                     issued := issued (storage w) ++ [RemoveItem key] |};
       console_error := console_error w; memory := memory w;
       observers := observers w; delivered := delivered w |}).

Definition log_error {T} (e : JsError) : M (World T) unit :=
  modify (fun w =>
    {| storage := storage w;
       console_error := console_error w ++ [e]; memory := memory w;
       observers := observers w; delivered := delivered w |}).

Definition put_memory {T} (v : T) : M (World T) unit :=
  modify (fun w =>
    {| storage := storage w;
       console_error := console_error w; memory := v;
       observers := observers w; delivered := delivered w |}).

(** Every current observer receives the value, in registration order. *)
Definition notify {T} (v : T) : M (World T) unit :=
  modify (fun w =>
    {| storage := storage w;
       console_error := console_error w; memory := memory w;
       observers := observers w;
       delivered := delivered w ++ map (fun o => (o, v)) (observers w) |}).

(** Reading the stored text back: text that is not parseable throws. *)
Definition read_back {T} `{Codec T} (text : string) : M (World T) T :=
  match deserialize text with
  | Some v => ret v
  | None => throw (SyntaxError "Unexpected token in JSON")
  end.

(** Modelled from the spec: [initialize(name)] of the missing provider.
    Absent key: the empty value, nothing written back.  Present and
    parseable: the value read.  Present and not parseable: the error is
    logged, the key is removed from storage and the empty value is the
    result; the fault does not leave the operation. *)
Definition initialize {T} `{Codec T} (name : string) : M (World T) T :=
  try_catch
    (let* raw := storage_get name in
     match raw with
     | None => ret empty_value
     | Some text => read_back text
     end)
    (fun error =>
       let* _ := log_error error in
       let* _ := storage_remove name in
       ret empty_value).

(** Modelled from the spec: first acquisition at application start: the
    in-memory value of the missing provider becomes what [initialize]
    returns. *)
Definition start {T} `{Codec T} (name : string) : M (World T) T :=
  let* v := initialize name in
  let* _ := put_memory v in
  ret v.

(** The argument of [set]: a replacement value, or a function from the
    previous value to the next. *)
Inductive NextValue (T : Type) : Type :=
| Literal (v : T)
| Updater (f : T -> T).
Arguments Literal {T} v.
Arguments Updater {T} f.

(** Modelled from the spec: [set(nextValueOrUpdater)] of the missing
    provider, in the order the specification gives: compute the next
    value from the in-memory value of this moment, update the in-memory
    value, notify the observers, write the serialized value under
    [name]. *)
Definition set {T} `{Codec T} (name : string) (arg : NextValue T)
  : M (World T) unit :=
  let* prev := gets memory in
  let next :=
    match arg with
    | Literal v => v
    | Updater f => f prev
    end in
  let* _ := put_memory next in
  let* _ := notify next in
  storage_set name (serialize next).

(** Modelled from the spec: [subscribe] and [unsubscribe] of the missing
    provider. *)
Definition subscribe {T} (o : Observer) : M (World T) unit :=
  modify (fun w =>
    {| storage := storage w;
       console_error := console_error w; memory := memory w;
       observers := observers w ++ [o]; delivered := delivered w |}).

Definition unsubscribe {T} (o : Observer) : M (World T) unit :=
  modify (fun w =>
    {| storage := storage w;
       console_error := console_error w; memory := memory w;
       observers := filter (fun o' => o' <> o) (observers w);
       delivered := delivered w |}).

(** A process restart: nothing survives but what durable storage holds. *)
Definition restart {T} `{Codec T} (w : World T) : World T :=
  {| storage := {| items := items (storage w); issued := [] |};
     console_error := []; memory := empty_value;
     observers := []; delivered := [] |}.

(** A value is serializable when the reader gives it back from what the
    writer wrote. *)
Definition serializable {T} `{Codec T} (v : T) : Prop :=
  deserialize (serialize v) = Some v.

(** The cart: an array of items, stored as JSON text.  Text that parses
    to something other than an array is not of the expected structure. *)
#[global] Instance cart_codec : Codec (list Json.Json) := {|
  empty_value := [];
  serialize := fun items => Json.stringify (Json.JsonArr items);
  deserialize := fun text =>
    match Json.parse text with
    | Some (Json.JsonArr items) => Some items
    | _ => None
    end
|}.

(** The world of a freshly loaded page over given storage contents. *)
Definition page_load {T} `{Codec T} (stored : gmap string string) : World T :=
  {| storage := {| items := stored; issued := [] |};
     console_error := []; memory := empty_value;
     observers := []; delivered := [] |}.

End PersistedStateStore.

(** ** The storage doubles of the cart tests

    [seedLocalStorage] and the [localStorageMock] of
    [renderCartPageWithCustomState]: objects put in the place of
    [window.localStorage], whose four methods are [jest.fn] spies. *)

Module CartTestFixtures.
Import Js Json.
Local Open Scope js_scope.

(** A storage double: what its [getItem] spy computes, and the calls
    each spy has recorded.  [setItem], [removeItem] and [clear] are bare
    [jest.fn()]: they record their call and do nothing else. *)
Record Double : Type := mkDouble {
  getItem_impl : string -> option string;
  getItem_calls : list string;
  setItem_calls : list (string * string);
  removeItem_calls : list string;
  clear_calls : nat
}.

(** The [getItem] of [seedLocalStorage(cartValue)]:
    [key !== "cart" ? null : cartValue == null ? null : JSON.stringify(cartValue)].
    [None] is an undefined argument; [==] takes null and undefined alike. *)
Definition seed_getItem (cartValue : option Json) (key : string)
  : option string :=
  if negb (String.eqb key "cart") then None
  else
    match cartValue with
    | None => None
    | Some JsonNull => None
    | Some v => Some (stringify v)
    end.

(** [seedLocalStorage(cartValue)]: fresh spies around [seed_getItem]. *)
Definition seedLocalStorage (cartValue : option Json) : Double :=
  {| getItem_impl := seed_getItem cartValue;
     getItem_calls := []; setItem_calls := [];
     removeItem_calls := []; clear_calls := 0%nat |}.

(** Truthiness of a value that JSON text can hold. *)
Definition json_truthy (v : Json) : bool :=
  match v with
  | JsonNull => false
  | JsonBool b => b
  | JsonNum n => negb (n =? 0)
  | JsonStr s => string_truthy s
  | JsonArr _ => true
  | JsonObj _ => true
  end.

(** The [getItem] of the double in
    [renderCartPageWithCustomState(cartItems = [], authUser = null)];
    an undefined argument ([None]) takes its default. *)
Definition custom_getItem (cartItems authUser : option Json) (key : string)
  : option string :=
  let cartItems := default (JsonArr []) cartItems in
  let authUser := default JsonNull authUser in
  if String.eqb key "auth" then
    if json_truthy authUser
    then Some (stringify
                 (JsonObj [("user", authUser); ("token", JsonStr "test-token")]))
    else None
  else if String.eqb key "cart" then Some (stringify cartItems)
  else None.

Definition customStateStorage (cartItems authUser : option Json) : Double :=
  {| getItem_impl := custom_getItem cartItems authUser;
     getItem_calls := []; setItem_calls := [];
     removeItem_calls := []; clear_calls := 0%nat |}.

(** The calls on a double. *)
Definition getItem (key : string) : M Double (option string) :=
  fun d =>
    (Normal (getItem_impl d key),
     {| getItem_impl := getItem_impl d;
        getItem_calls := getItem_calls d ++ [key];
        setItem_calls := setItem_calls d;
        removeItem_calls := removeItem_calls d;
        clear_calls := clear_calls d |}).

Definition setItem (key value : string) : M Double unit :=
  modify (fun d =>
    {| getItem_impl := getItem_impl d;
       getItem_calls := getItem_calls d;
       setItem_calls := setItem_calls d ++ [(key, value)];
       removeItem_calls := removeItem_calls d;
       clear_calls := clear_calls d |}).

Definition removeItem (key : string) : M Double unit :=
  modify (fun d =>
    {| getItem_impl := getItem_impl d;
       getItem_calls := getItem_calls d;
       setItem_calls := setItem_calls d;
       removeItem_calls := removeItem_calls d ++ [key];
       clear_calls := clear_calls d |}).

Definition clear : M Double unit :=
  modify (fun d =>
    {| getItem_impl := getItem_impl d;
       getItem_calls := getItem_calls d;
       setItem_calls := setItem_calls d;
       removeItem_calls := removeItem_calls d;
       clear_calls := S (clear_calls d) |}).

(** A call a component under test can make on the storage it is given. *)
Inductive StorageCall : Type :=
| CallGetItem (key : string)
| CallSetItem (key value : string)
| CallRemoveItem (key : string)
| CallClear.

Definition run_call (c : StorageCall) (d : Double) : Double :=
  match c with
  | CallGetItem key => world_after (getItem key) d
  | CallSetItem key value => world_after (setItem key value) d
  | CallRemoveItem key => world_after (removeItem key) d
  | CallClear => world_after clear d
  end.

Definition run_calls (cs : list StorageCall) (d : Double) : Double :=
  fold_left (fun d c => run_call c d) cs d.

(** The writes among a list of calls, in order. *)
Fixpoint writes_of (cs : list StorageCall) : list (string * string) :=
  match cs with
  | [] => []
  | CallSetItem key value :: cs' => (key, value) :: writes_of cs'
  | _ :: cs' => writes_of cs'
  end.

End CartTestFixtures.

(** * Properties of the authentication gate *)

Section AuthGateFacts.
Import Js AuthGate.

Ltac js_step :=
  unfold completion_of, world_after, requireSignIn, isAdmin, JWT_verify,
    req_user_id, user_role, console_log, res_status, res_send, set_req_user,
    next, try_catch, bind, gets, ret, throw, lift, modify; simpl.

(** [extract_token] gives the token back from both forms of the header. *)
Lemma extract_token_bearer (token : string) :
  extract_token ("Bearer " +:+ token) = token.
Proof. reflexivity. Qed.

Lemma extract_token_bare (token : string) :
  startsWith "Bearer " token = false -> extract_token token = token.
Proof. intros Hp. unfold extract_token. now rewrite Hp. Qed.

Lemma extract_token_carries (h token : string) :
  carries h token -> extract_token h = token.
Proof.
  intros [-> | [-> Hp]].
  - apply extract_token_bearer.
  - now apply extract_token_bare.
Qed.

Lemma string_truthy_nonempty (h : string) :
  string_truthy h = true <-> h <> "".
Proof. destruct h; simpl; split; intros; congruence. Qed.

(** What [requireSignIn] does, case by case. *)
Lemma requireSignIn_falsy (E : Env) (w : World) :
  header_falsy (authorization (req w)) = true ->
  requireSignIn E w =
    (Normal tt,
     {| req := req w;
        res := {| statusCode := 401;
                  sent := sent (res w) ++ [(401, missing_token_body)] |};
        console := console w ++ [LogStr "Missing authorization token"];
        next_calls := next_calls w;
        verify_calls := verify_calls w |}).
Proof. intros Hf. js_step. rewrite Hf. reflexivity. Qed.

Lemma requireSignIn_rejected (E : Env) (w : World) (h : string) (e : JsError) :
  authorization (req w) = Some h ->
  string_truthy h = true ->
  jwt_verify E (extract_token h) (JWT_SECRET E) = Throw e ->
  requireSignIn E w =
    (Normal tt,
     {| req := req w;
        res := {| statusCode := 401;
                  sent := sent (res w) ++ [(401, invalid_token_body)] |};
        console := console w ++ [LogErr e];
        next_calls := next_calls w;
        verify_calls :=
          verify_calls w ++ [(extract_token h, JWT_SECRET E)] |}).
Proof.
  intros Hh Ht Hv. js_step. rewrite Hh. simpl. rewrite Ht. simpl.
  rewrite Hv. reflexivity.
Qed.

Lemma requireSignIn_verified (E : Env) (w : World) (h : string) (c : Claims) :
  authorization (req w) = Some h ->
  string_truthy h = true ->
  jwt_verify E (extract_token h) (JWT_SECRET E) = Normal c ->
  requireSignIn E w =
    (Normal tt,
     {| req := {| authorization := authorization (req w); user := Some c |};
        res := res w;
        console := console w;
        next_calls := S (next_calls w);
        verify_calls :=
          verify_calls w ++ [(extract_token h, JWT_SECRET E)] |}).
Proof.
  intros Hh Ht Hv. js_step. rewrite Hh. simpl. rewrite Ht. simpl.
  rewrite Hv. simpl. now rewrite Hh.
Qed.

(** The three cases cover every world. *)
Lemma requireSignIn_cases (E : Env) (w : World) :
  header_falsy (authorization (req w)) = true \/
  exists h, authorization (req w) = Some h /\ string_truthy h = true /\
    ((exists e, jwt_verify E (extract_token h) (JWT_SECRET E) = Throw e) \/
     (exists c, jwt_verify E (extract_token h) (JWT_SECRET E) = Normal c)).
Proof.
  destruct (authorization (req w)) as [h|] eqn:Hh; [|left; reflexivity].
  destruct (string_truthy h) eqn:Ht.
  - right. exists h. split; [reflexivity|]. split; [assumption|].
    destruct (jwt_verify E (extract_token h) (JWT_SECRET E)) as [c|e];
      [right; now exists c | left; now exists e].
  - left. simpl. now rewrite Ht.
Qed.

(** [requireSignIn] returns normally on every world: whatever is thrown
    inside is caught. *)
Lemma requireSignIn_returns (E : Env) (w : World) :
  completion_of (requireSignIn E) w = Normal tt.
Proof.
  unfold completion_of.
  destruct (requireSignIn_cases E w) as [Hf | (h & Hh & Ht & [[e Hv] | [c Hv]])].
  - now rewrite (requireSignIn_falsy E w Hf).
  - now rewrite (requireSignIn_rejected E w h e Hh Ht Hv).
  - now rewrite (requireSignIn_verified E w h c Hh Ht Hv).
Qed.

(** C2: on a request without an authorization header, [requireSignIn]
    answers 401 with the body [{success:false, message:"Unauthorized:
    Missing token"}], returns normally without calling [next], and the
    verification primitive is not invoked. *)
Theorem requireSignIn_missing_header (E : Env) (w : World) :
  authorization (req w) = None ->
  completion_of (requireSignIn E) w = Normal tt /\
  sent (res (world_after (requireSignIn E) w)) =
    sent (res w) ++
    [(401, [("success", JBool false);
            ("message", JStr "Unauthorized: Missing token")])] /\
  verify_calls (world_after (requireSignIn E) w) = verify_calls w /\
  next_calls (world_after (requireSignIn E) w) = next_calls w.
Proof.
  intros Hh. unfold completion_of, world_after.
  rewrite requireSignIn_falsy by now rewrite Hh.
  repeat split.
Qed.

Lemma requireSignIn_missing_header_witness :
  let w := arrival {| authorization := None; user := None |} in
  authorization (req w) = None /\
  completion_of (requireSignIn sample_env) w = Normal tt /\
  sent (res (world_after (requireSignIn sample_env) w)) =
    [(401, [("success", JBool false);
            ("message", JStr "Unauthorized: Missing token")])] /\
  verify_calls (world_after (requireSignIn sample_env) w) = [] /\
  next_calls (world_after (requireSignIn sample_env) w) = 0%nat.
Proof.
  intros w. split; [reflexivity|].
  exact (requireSignIn_missing_header sample_env w eq_refl).
Defined.

(** C3: when the credential of a request fails verification, whatever
    the error, [requireSignIn] answers 401 with the body [{success:false,
    message:"Unauthorized: Invalid token"}], does not call [next], and
    returns normally: the error does not reach the caller. *)
Theorem requireSignIn_invalid_credential
    (E : Env) (w : World) (h : string) (e : JsError) :
  authorization (req w) = Some h ->
  h <> "" ->
  jwt_verify E (extract_token h) (JWT_SECRET E) = Throw e ->
  completion_of (requireSignIn E) w = Normal tt /\
  sent (res (world_after (requireSignIn E) w)) =
    sent (res w) ++
    [(401, [("success", JBool false);
            ("message", JStr "Unauthorized: Invalid token")])] /\
  next_calls (world_after (requireSignIn E) w) = next_calls w /\
  user (req (world_after (requireSignIn E) w)) = user (req w).
Proof.
  intros Hh Hne Hv. apply string_truthy_nonempty in Hne.
  unfold completion_of, world_after.
  rewrite (requireSignIn_rejected E w h e Hh Hne Hv).
  repeat split.
Qed.

Lemma requireSignIn_invalid_credential_witness :
  let w := arrival {| authorization := Some "Bearer old"; user := None |} in
  (authorization (req w) = Some "Bearer old" /\
   "Bearer old" <> "" /\
   jwt_verify sample_env (extract_token "Bearer old") (JWT_SECRET sample_env) =
     Throw (TokenExpiredError "jwt expired")) /\
  completion_of (requireSignIn sample_env) w = Normal tt /\
  sent (res (world_after (requireSignIn sample_env) w)) =
    [(401, [("success", JBool false);
            ("message", JStr "Unauthorized: Invalid token")])] /\
  next_calls (world_after (requireSignIn sample_env) w) = 0%nat /\
  user (req (world_after (requireSignIn sample_env) w)) = None.
Proof.
  intros w.
  assert (Hne : "Bearer old" <> "") by discriminate.
  split; [split; [reflexivity | split; [exact Hne | reflexivity]] |].
  exact (requireSignIn_invalid_credential sample_env w "Bearer old"
           (TokenExpiredError "jwt expired") eq_refl Hne eq_refl).
Defined.

(** C4: when the header of a request carries a token that the
    verification primitive accepts, behind the word Bearer or bare,
    [requireSignIn] calls [next] once, sends nothing, and leaves in
    [req.user] the decoded claims, whose subject id is the one decoded
    from the token. *)
Theorem requireSignIn_valid_credential
    (E : Env) (w : World) (h token : string) (c : Claims) :
  authorization (req w) = Some h ->
  h <> "" ->
  carries h token ->
  jwt_verify E token (JWT_SECRET E) = Normal c ->
  completion_of (requireSignIn E) w = Normal tt /\
  next_calls (world_after (requireSignIn E) w) = S (next_calls w) /\
  sent (res (world_after (requireSignIn E) w)) = sent (res w) /\
  user (req (world_after (requireSignIn E) w)) = Some c /\
  (_id <$> user (req (world_after (requireSignIn E) w))) = Some (_id c).
Proof.
  intros Hh Hne Hc Hv. apply string_truthy_nonempty in Hne.
  apply extract_token_carries in Hc. rewrite <- Hc in Hv.
  unfold completion_of, world_after.
  rewrite (requireSignIn_verified E w h c Hh Hne Hv).
  repeat split.
Qed.

Lemma requireSignIn_valid_credential_witness :
  let w1 := arrival {| authorization := Some "Bearer good"; user := None |} in
  let w2 := arrival {| authorization := Some "good"; user := None |} in
  (carries "Bearer good" "good" /\ carries "good" "good" /\
   jwt_verify sample_env "good" (JWT_SECRET sample_env) =
     Normal (sample_claims "u1")) /\
  (next_calls (world_after (requireSignIn sample_env) w1) = 1%nat /\
   sent (res (world_after (requireSignIn sample_env) w1)) = [] /\
   user (req (world_after (requireSignIn sample_env) w1)) =
     Some (sample_claims "u1")) /\
  (next_calls (world_after (requireSignIn sample_env) w2) = 1%nat /\
   sent (res (world_after (requireSignIn sample_env) w2)) = [] /\
   user (req (world_after (requireSignIn sample_env) w2)) =
     Some (sample_claims "u1")).
Proof.
  intros w1 w2.
  assert (Hc1 : carries "Bearer good" "good") by (left; reflexivity).
  assert (Hc2 : carries "good" "good") by (right; split; reflexivity).
  assert (Hn1 : "Bearer good" <> "") by discriminate.
  assert (Hn2 : "good" <> "") by discriminate.
  split; [split; [exact Hc1 | split; [exact Hc2 | reflexivity]] |]. split.
  - destruct (requireSignIn_valid_credential sample_env w1 "Bearer good"
                "good" (sample_claims "u1") eq_refl Hn1 Hc1 eq_refl)
      as (_ & Hn & Hs & Hu & _).
    split; [exact Hn | split; [exact Hs | exact Hu]].
  - destruct (requireSignIn_valid_credential sample_env w2 "good"
                "good" (sample_claims "u1") eq_refl Hn2 Hc2 eq_refl)
      as (_ & Hn & Hs & Hu & _).
    split; [exact Hn | split; [exact Hs | exact Hu]].
Defined.

(** C10: one call of [requireSignIn], on any request and with any
    verification primitive, either sends exactly one response and does
    not call [next], or calls [next] exactly once and sends nothing. *)
Theorem requireSignIn_responds_or_calls_next (E : Env) (w : World) :
  (sent (res (world_after (requireSignIn E) w)) <> sent (res w) /\
   length (sent (res (world_after (requireSignIn E) w))) =
     S (length (sent (res w))) /\
   next_calls (world_after (requireSignIn E) w) = next_calls w)
  \/
  (sent (res (world_after (requireSignIn E) w)) = sent (res w) /\
   next_calls (world_after (requireSignIn E) w) = S (next_calls w)).
Proof.
  unfold world_after.
  destruct (requireSignIn_cases E w) as [Hf | (h & Hh & Ht & [[e Hv] | [c Hv]])].
  - left. rewrite (requireSignIn_falsy E w Hf). simpl.
    rewrite length_app. simpl. repeat split; [|lia].
    intros Heq. apply (f_equal (@length _)) in Heq.
    rewrite length_app in Heq. simpl in Heq. lia.
  - left. rewrite (requireSignIn_rejected E w h e Hh Ht Hv). simpl.
    rewrite length_app. simpl. repeat split; [|lia].
    intros Heq. apply (f_equal (@length _)) in Heq.
    rewrite length_app in Heq. simpl in Heq. lia.
  - right. rewrite (requireSignIn_verified E w h c Hh Ht Hv). simpl.
    split; reflexivity.
Qed.

(** What [isAdmin] does, case by case. *)
Lemma isAdmin_no_claims (E : Env) (w : World) :
  user (req w) = None ->
  isAdmin E w =
    (Normal tt,
     admin_error_world w
       (TypeError "Cannot read properties of undefined (reading '_id')")).
Proof. intros Hu. js_step. rewrite Hu. reflexivity. Qed.

Lemma isAdmin_lookup_fails (E : Env) (w : World) (c : Claims) (e : JsError) :
  user (req w) = Some c ->
  findById E (_id c) = Throw e ->
  isAdmin E w = (Normal tt, admin_error_world w e).
Proof. intros Hu Hf. js_step. rewrite Hu. simpl. rewrite Hf. reflexivity. Qed.

Lemma isAdmin_no_record (E : Env) (w : World) (c : Claims) :
  user (req w) = Some c ->
  findById E (_id c) = Normal None ->
  isAdmin E w =
    (Normal tt,
     admin_error_world w
       (TypeError "Cannot read properties of null (reading 'role')")).
Proof. intros Hu Hf. js_step. rewrite Hu. simpl. rewrite Hf. reflexivity. Qed.

Lemma isAdmin_not_privileged (E : Env) (w : World) (c : Claims) (u : User) :
  user (req w) = Some c ->
  findById E (_id c) = Normal (Some u) ->
  role u <> JNum 1 ->
  isAdmin E w =
    (Normal tt,
     {| req := req w;
        res := {| statusCode := 401;
                  sent := sent (res w) ++ [(401, forbidden_body)] |};
        console := console w;
        next_calls := next_calls w;
        verify_calls := verify_calls w |}).
Proof.
  intros Hu Hf Hr. js_step. rewrite Hu. simpl. rewrite Hf. simpl.
  unfold strict_eq. rewrite bool_decide_eq_false_2 by assumption.
  reflexivity.
Qed.

Lemma isAdmin_privileged (E : Env) (w : World) (c : Claims) (u : User) :
  user (req w) = Some c ->
  findById E (_id c) = Normal (Some u) ->
  role u = JNum 1 ->
  isAdmin E w =
    (Normal tt,
     {| req := req w;
        res := res w;
        console := console w;
        next_calls := S (next_calls w);
        verify_calls := verify_calls w |}).
Proof.
  intros Hu Hf Hr. js_step. rewrite Hu. simpl. rewrite Hf. simpl.
  rewrite Hr. reflexivity.
Qed.

(** [isAdmin] returns normally whatever the store does. *)
Lemma isAdmin_returns (E : Env) (w : World) :
  completion_of (isAdmin E) w = Normal tt.
Proof.
  unfold completion_of.
  destruct (user (req w)) as [c|] eqn:Hu;
    [|now rewrite isAdmin_no_claims].
  destruct (findById E (_id c)) as [[u|]|e] eqn:Hf.
  - destruct (decide (role u = JNum 1)) as [Hr|Hr].
    + now rewrite (isAdmin_privileged E w c u).
    + now rewrite (isAdmin_not_privileged E w c u).
  - now rewrite (isAdmin_no_record E w c).
  - now rewrite (isAdmin_lookup_fails E w c e).
Qed.

(** C1, at the input where the code departs from it: the claims name the
    subject [u3], for which the store has no record.  [isAdmin] does not
    answer with the body [{success:false, message:"UnAuthorized Access"}]:
    reading [role] of null throws, and the catch clause answers 401 with
    the body of the lookup-error case, carrying the TypeError. *)
Theorem isAdmin_no_record_answers_admin_error :
  let w := {| req := {| authorization := Some "Bearer good3";
                        user := Some (sample_claims "u3") |};
              res := fresh_response; console := [];
              next_calls := 0%nat; verify_calls := [] |} in
  findById sample_env "u3" = Normal None /\
  sent (res (world_after (isAdmin sample_env) w)) =
    [(401, [("success", JBool false);
            ("error", JErr (TypeError
               "Cannot read properties of null (reading 'role')"));
            ("message", JStr "Error in admin middleware")])] /\
  sent (res (world_after (isAdmin sample_env) w)) <>
    [(401, [("success", JBool false);
            ("message", JStr "UnAuthorized Access")])] /\
  next_calls (world_after (isAdmin sample_env) w) = 0%nat.
Proof.
  intros w. split; [reflexivity|]. split; [reflexivity|].
  split; [discriminate | reflexivity].
Qed.

(** C5: when the identity lookup itself fails, [isAdmin] answers 401 with
    the body [{success:false, error, message:"Error in admin middleware"}]
    holding the error of the store, returns normally, and does not call
    [next]. *)
Theorem isAdmin_lookup_failure_fails_closed
    (E : Env) (w : World) (c : Claims) (e : JsError) :
  user (req w) = Some c ->
  findById E (_id c) = Throw e ->
  completion_of (isAdmin E) w = Normal tt /\
  sent (res (world_after (isAdmin E) w)) =
    sent (res w) ++
    [(401, [("success", JBool false); ("error", JErr e);
            ("message", JStr "Error in admin middleware")])] /\
  next_calls (world_after (isAdmin E) w) = next_calls w.
Proof.
  intros Hu Hf. unfold completion_of, world_after.
  rewrite (isAdmin_lookup_fails E w c e Hu Hf). repeat split.
Qed.

Lemma isAdmin_lookup_failure_fails_closed_witness :
  let w := {| req := {| authorization := Some "Bearer gooddown";
                        user := Some (sample_claims "down") |};
              res := fresh_response; console := [];
              next_calls := 0%nat; verify_calls := [] |} in
  findById sample_env "down" = Throw (MongooseError "buffering timed out") /\
  sent (res (world_after (isAdmin sample_env) w)) =
    [(401, [("success", JBool false);
            ("error", JErr (MongooseError "buffering timed out"));
            ("message", JStr "Error in admin middleware")])] /\
  next_calls (world_after (isAdmin sample_env) w) = 0%nat.
Proof.
  intros w. split; [reflexivity|].
  destruct (isAdmin_lookup_failure_fails_closed sample_env w
              (sample_claims "down") (MongooseError "buffering timed out")
              eq_refl eq_refl) as (_ & Hs & Hn).
  split; [exact Hs | exact Hn].
Defined.

(** On an admin-gated route, [isAdmin] runs exactly when [requireSignIn]
    has called [next]. *)
Lemma admin_route_stops (E : Env) (w : World) :
  credential_accepted E (req w) = false ->
  admin_route E w = requireSignIn E w.
Proof.
  intros Hc. unfold admin_route, run_chain, credential_accepted in *.
  destruct (requireSignIn_cases E w) as [Hf | (h & Hh & Ht & [[e Hv] | [c Hv]])].
  - rewrite (requireSignIn_falsy E w Hf). simpl.
    now rewrite Nat.ltb_irrefl.
  - rewrite (requireSignIn_rejected E w h e Hh Ht Hv). simpl.
    now rewrite Nat.ltb_irrefl.
  - rewrite Hh, Ht, Hv in Hc. discriminate.
Qed.

Lemma admin_route_goes_on (E : Env) (w : World) :
  credential_accepted E (req w) = true ->
  admin_route E w = isAdmin E (world_after (requireSignIn E) w).
Proof.
  intros Hc. unfold admin_route, run_chain, credential_accepted, world_after in *.
  destruct (requireSignIn_cases E w) as [Hf | (h & Hh & Ht & [[e Hv] | [c Hv]])].
  - destruct (authorization (req w)) as [h|]; [|discriminate].
    simpl in Hf. apply negb_true_iff in Hf. rewrite Hf in Hc. discriminate.
  - rewrite Hh, Ht, Hv in Hc. discriminate.
  - rewrite (requireSignIn_verified E w h c Hh Ht Hv). simpl.
    assert (Hlt : (next_calls w <? S (next_calls w))%nat = true)
      by (apply Nat.ltb_lt; lia).
    rewrite Hlt.
    pose proof (isAdmin_returns E
      {| req := {| authorization := authorization (req w); user := Some c |};
         res := res w; console := console w;
         next_calls := S (next_calls w);
         verify_calls := verify_calls w ++ [(extract_token h, JWT_SECRET E)] |})
      as Hr.
    unfold completion_of in Hr.
    destruct (isAdmin E _) as [[[]|e] w'] eqn:Hi; simpl in Hr;
      [|discriminate].
    match goal with
    | |- context [Nat.ltb ?a ?b] => destruct (Nat.ltb a b); reflexivity
    end.
Qed.

(** C6: a request without an accepted credential, on a route guarded by
    [requireSignIn] then [isAdmin], gets exactly one response, 401, whose
    message is the missing-token or the invalid-token one; no response
    with the message "UnAuthorized Access" is sent. *)
Theorem admin_route_unauthenticated (E : Env) (r : Request) :
  credential_accepted E r = false ->
  (exists msg,
     sent (res (world_after (admin_route E) (arrival r))) =
       [(401, [("success", JBool false); ("message", JStr msg)])] /\
     (msg = "Unauthorized: Missing token" \/
      msg = "Unauthorized: Invalid token")) /\
  Forall (fun resp => body_message (snd resp) <> JStr "UnAuthorized Access")
    (sent (res (world_after (admin_route E) (arrival r)))).
Proof.
  intros Hc. unfold world_after.
  rewrite (admin_route_stops E (arrival r) Hc).
  destruct (requireSignIn_cases E (arrival r))
    as [Hf | (h & Hh & Ht & [[e Hv] | [c Hv]])].
  - rewrite (requireSignIn_falsy E _ Hf). simpl. split.
    + exists "Unauthorized: Missing token". split; [reflexivity | now left].
    + repeat constructor. discriminate.
  - rewrite (requireSignIn_rejected E _ h e Hh Ht Hv). simpl. split.
    + exists "Unauthorized: Invalid token". split; [reflexivity | now right].
    + repeat constructor. discriminate.
  - unfold credential_accepted in Hc. simpl in Hh.
    rewrite Hh, Ht, Hv in Hc. discriminate.
Qed.

Lemma admin_route_unauthenticated_witness :
  let r := {| authorization := Some "forged.token.value"; user := None |} in
  credential_accepted sample_env r = false /\
  (exists msg,
     sent (res (world_after (admin_route sample_env) (arrival r))) =
       [(401, [("success", JBool false); ("message", JStr msg)])] /\
     (msg = "Unauthorized: Missing token" \/
      msg = "Unauthorized: Invalid token")) /\
  Forall (fun resp => body_message (snd resp) <> JStr "UnAuthorized Access")
    (sent (res (world_after (admin_route sample_env) (arrival r)))).
Proof.
  intros r. split; [reflexivity|].
  exact (admin_route_unauthenticated sample_env r eq_refl).
Defined.

End AuthGateFacts.

(** * JSON text reads back as the value it was written from *)

Section JsonFacts.
Import Js Json.

#[local] Arguments String.append !_ _ / : simpl nomatch.

Lemma string_app_assoc (a b c : string) : (a +:+ b) +:+ c = a +:+ (b +:+ c).
Proof. induction a as [|x a IH]; simpl; [reflexivity | now rewrite IH]. Qed.

Lemma string_app_length (a b : string) :
  String.length (a +:+ b) = (String.length a + String.length b)%nat.
Proof. induction a as [|x a IH]; simpl; [reflexivity | now rewrite IH]. Qed.

(** The reader undoes the escape of one character. *)
Lemma parse_escape_char (c : ascii) (rest : string) :
  parse_string_body (escape_char c +:+ rest) =
  cons_char c (parse_string_body rest).
Proof.
  destruct c as [[] [] [] [] [] [] [] []]; reflexivity.
Qed.

Lemma parse_string_body_escape (s rest : string) :
  parse_string_body (escape s +:+ String dquote rest) = Some (s, rest).
Proof.
  induction s as [|c s IH].
  - reflexivity.
  - change (escape (String c s)) with (escape_char c +:+ escape s).
    rewrite string_app_assoc, parse_escape_char, IH. reflexivity.
Qed.

Lemma parse_string_body_quote (s rest : string) :
  exists body, quote s +:+ rest = String dquote body /\
               parse_string_body body = Some (s, rest).
Proof.
  exists (escape s +:+ String dquote rest). split.
  - unfold quote. simpl. now rewrite string_app_assoc.
  - apply parse_string_body_escape.
Qed.

(** Digits written from a decimal number are read back as its digits. *)
Lemma span_digits_stop (rest : string) :
  starts_digit rest = false -> span_digits rest = (EmptyString, rest).
Proof. destruct rest as [|c r]; simpl; [reflexivity | now intros ->]. Qed.

Lemma span_digits_uint (u : uint) (rest : string) :
  starts_digit rest = false ->
  span_digits (NilEmpty.string_of_uint u +:+ rest) =
    (NilEmpty.string_of_uint u, rest).
Proof.
  intros Hr. induction u; simpl;
    [now apply span_digits_stop | now rewrite IHu ..].
Qed.

(** The digits of a positive number do not begin with a zero. *)
Lemma to_uint_unorm (p : positive) : unorm (Pos.to_uint p) = Pos.to_uint p.
Proof.
  rewrite <- DecimalPos.Unsigned.to_of, DecimalPos.Unsigned.of_to.
  reflexivity.
Qed.

Lemma to_uint_no_leading_zero (p : positive) (u : uint) :
  Pos.to_uint p <> D0 u.
Proof.
  intros Hp. pose proof (to_uint_unorm p) as Hn. rewrite Hp in Hn.
  rewrite DecimalFacts.unorm_D0 in Hn.
  destruct (uint_eq_dec u Nil) as [-> | Hu].
  - apply (DecimalPos.Unsigned.to_uint_nonzero p). exact Hp.
  - pose proof (DecimalFacts.nb_digits_unorm u Hu) as Hle.
    rewrite Hn in Hle. simpl in Hle. lia.
Qed.

Lemma leading_zero_to_uint (p : positive) :
  leading_zero (NilEmpty.string_of_uint (Pos.to_uint p)) = false.
Proof.
  pose proof (to_uint_no_leading_zero p) as Hz.
  destruct (Pos.to_uint p) as [|u|u|u|u|u|u|u|u|u|u];
    [reflexivity | now destruct (Hz u)
    | simpl; destruct (NilEmpty.string_of_uint u); reflexivity ..].
Qed.

Lemma string_of_uint_nonempty (u : uint) :
  u <> Nil ->
  exists c s, NilEmpty.string_of_uint u = String c s /\ is_digit c = true.
Proof.
  destruct u; [now intros [] | intros _; simpl; eexists; eexists; split;
    [reflexivity | reflexivity] ..].
Qed.

Lemma digit_not_minus (c : ascii) : is_digit c = true -> Ascii.eqb c "-" = false.
Proof. destruct c as [[] [] [] [] [] [] [] []]; try discriminate; reflexivity. Qed.

Lemma parse_number_plain (c : ascii) (s rest : string) (u : uint) :
  is_digit c = true ->
  span_digits (String c s +:+ rest) = (String c s, rest) ->
  leading_zero (String c s) = false ->
  starts_fraction rest = false ->
  NilEmpty.uint_of_string (String c s) = Some u ->
  parse_number (String c s +:+ rest) = Some (Z.of_int (Pos u), rest).
Proof.
  intros Hc Hsp Hlz Hf Hu. unfold parse_number.
  change (String c s +:+ rest) with (String c (s +:+ rest)) in *.
  cbv beta iota.
  rewrite (digit_not_minus c Hc), Hsp, Hlz, Hf, Hu. reflexivity.
Qed.

Lemma parse_number_minus (c : ascii) (s rest : string) (u : uint) :
  span_digits (String c s +:+ rest) = (String c s, rest) ->
  leading_zero (String c s) = false ->
  starts_fraction rest = false ->
  NilEmpty.uint_of_string (String c s) = Some u ->
  parse_number (String "-" (String c s +:+ rest)) =
    Some (Z.of_int (Neg u), rest).
Proof.
  intros Hsp Hlz Hf Hu. unfold parse_number.
  change (Ascii.eqb "-" "-") with true. cbv iota.
  rewrite Hsp, Hlz, Hf, Hu. reflexivity.
Qed.

Lemma string_of_uint_nilzero (u : uint) :
  u <> Nil -> NilZero.string_of_uint u = NilEmpty.string_of_uint u.
Proof. now destruct u. Qed.

Lemma parse_number_stringify (n : Z) (rest : string) :
  starts_digit rest = false ->
  starts_fraction rest = false ->
  parse_number (stringify_num n +:+ rest) = Some (n, rest).
Proof.
  intros Hd Hf. unfold stringify_num. destruct n as [|p|p].
  - simpl. unfold parse_number. simpl.
    rewrite (span_digits_stop rest Hd). simpl. now rewrite Hf.
  - pose proof (DecimalPos.Unsigned.to_uint_nonnil p) as Hnn.
    pose proof (DecimalZ.of_to (Z.pos p)) as Hz.
    change (Z.to_int (Z.pos p)) with (Pos (Pos.to_uint p)) in *.
    unfold NilZero.string_of_int.
    rewrite (string_of_uint_nilzero _ Hnn).
    destruct (string_of_uint_nonempty _ Hnn) as (c & s & Hs & Hc).
    rewrite <- Hz. rewrite Hs.
    apply parse_number_plain; [exact Hc | | | exact Hf |].
    + rewrite <- Hs. now apply span_digits_uint.
    + rewrite <- Hs. apply leading_zero_to_uint.
    + rewrite <- Hs. apply NilEmpty.usu.
  - pose proof (DecimalPos.Unsigned.to_uint_nonnil p) as Hnn.
    pose proof (DecimalZ.of_to (Z.neg p)) as Hz.
    change (Z.to_int (Z.neg p)) with (Neg (Pos.to_uint p)) in *.
    unfold NilZero.string_of_int.
    rewrite (string_of_uint_nilzero _ Hnn).
    destruct (string_of_uint_nonempty _ Hnn) as (c & s & Hs & Hc).
    rewrite <- Hz. rewrite Hs.
    change (String "-" (String c s) +:+ rest)
      with (String "-" (String c s +:+ rest)).
    apply parse_number_minus; [ | | exact Hf |].
    + rewrite <- Hs. now apply span_digits_uint.
    + rewrite <- Hs. apply leading_zero_to_uint.
    + rewrite <- Hs. apply NilEmpty.usu.
Qed.

(** Induction on values, with the hypothesis for every element and for
    every member. *)
Lemma Json_induction (P : Json -> Prop) :
  P JsonNull ->
  (forall b, P (JsonBool b)) ->
  (forall n, P (JsonNum n)) ->
  (forall s, P (JsonStr s)) ->
  (forall xs, Forall P xs -> P (JsonArr xs)) ->
  (forall ms, Forall (fun kv => P (snd kv)) ms -> P (JsonObj ms)) ->
  forall v, P v.
Proof.
  intros Hnull Hbool Hnum Hstr Harr Hobj.
  fix IH 1. intros [ | b | n | s | xs | ms ].
  - exact Hnull.
  - apply Hbool.
  - apply Hnum.
  - apply Hstr.
  - apply Harr. induction xs as [|x xs IHxs]; constructor; [apply IH | exact IHxs].
  - apply Hobj. induction ms as [|[k x] ms IHms]; constructor;
      [apply IH | exact IHms].
Qed.

(** The unfoldings of the writer on arrays and objects. *)
Lemma stringify_arr (xs : list Json) :
  stringify (JsonArr xs) = "[" +:+ stringify_elements xs +:+ "]".
Proof. reflexivity. Qed.

Lemma stringify_obj (ms : list (string * Json)) :
  stringify (JsonObj ms) = "{" +:+ stringify_members ms +:+ "}".
Proof. reflexivity. Qed.

Lemma weight_arr (xs : list Json) :
  weight (JsonArr xs) = S (weight_elements xs).
Proof. reflexivity. Qed.

Lemma weight_obj (ms : list (string * Json)) :
  weight (JsonObj ms) = S (weight_members ms).
Proof. reflexivity. Qed.

Lemma well_formed_arr (xs : list Json) :
  well_formed (JsonArr xs) = well_formed_elements xs.
Proof. reflexivity. Qed.

Lemma well_formed_obj (ms : list (string * Json)) :
  well_formed (JsonObj ms) =
  distinct (map fst ms) && well_formed_members ms.
Proof. reflexivity. Qed.

(** One step of the reader, by the first character of the text. *)
Lemma parse_value_null (f : nat) (rest : string) :
  parse_value (S f) ("null" +:+ rest) = Some (JsonNull, rest).
Proof. reflexivity. Qed.

Lemma parse_value_true (f : nat) (rest : string) :
  parse_value (S f) ("true" +:+ rest) = Some (JsonBool true, rest).
Proof. reflexivity. Qed.

Lemma parse_value_false (f : nat) (rest : string) :
  parse_value (S f) ("false" +:+ rest) = Some (JsonBool false, rest).
Proof. reflexivity. Qed.

Lemma parse_value_string (f : nat) (body : string) :
  parse_value (S f) (String dquote body) =
  match parse_string_body body with
  | Some (str, r) => Some (JsonStr str, r)
  | None => None
  end.
Proof. reflexivity. Qed.

Lemma parse_value_number (f : nat) (c : ascii) (s : string) :
  is_digit c = true \/ c = "-"%char ->
  parse_value (S f) (String c s) =
  match parse_number (String c s) with
  | Some (n, r) => Some (JsonNum n, r)
  | None => None
  end.
Proof.
  destruct c as [[] [] [] [] [] [] [] []]; intros [Hc | Hc];
    try discriminate Hc; reflexivity.
Qed.

Lemma parse_value_empty_array (f : nat) (rest : string) :
  parse_value (S f) ("[]" +:+ rest) = Some (JsonArr [], rest).
Proof. reflexivity. Qed.

Lemma parse_value_empty_object (f : nat) (rest : string) :
  parse_value (S f) ("{}" +:+ rest) = Some (JsonObj [], rest).
Proof. reflexivity. Qed.

Lemma parse_value_array (f : nat) (c : ascii) (s : string) :
  value_start c = true ->
  parse_value (S f) (String "[" (String c s)) =
  match parse_elements f (String c s) with
  | Some (xs, r) => Some (JsonArr xs, r)
  | None => None
  end.
Proof.
  destruct c as [[] [] [] [] [] [] [] []]; intros Hc;
    try discriminate Hc; reflexivity.
Qed.

Lemma parse_value_object (f : nat) (body : string) :
  parse_value (S f) (String "{" (String dquote body)) =
  match parse_members f (String dquote body) with
  | Some (ms, r) => Some (JsonObj (obj_of_members ms), r)
  | None => None
  end.
Proof. reflexivity. Qed.

Lemma parse_elements_step (f : nat) (s : string) :
  parse_elements (S f) s =
  match parse_value f s with
  | Some (v, r) =>
      match skip_ws r with
      | String c r' =>
          if Ascii.eqb c "," then
            match parse_elements f r' with
            | Some (vs, r'') => Some (v :: vs, r'')
            | None => None
            end
          else if Ascii.eqb c "]" then Some ([v], r')
          else None
      | EmptyString => None
      end
  | None => None
  end.
Proof. reflexivity. Qed.

Lemma parse_members_step (f : nat) (body : string) :
  parse_members (S f) (String dquote body) =
  match parse_string_body body with
  | Some (k, r) =>
      match skip_ws r with
      | String c r1 =>
          if Ascii.eqb c ":" then
            match parse_value f r1 with
            | Some (v, r2) =>
                match skip_ws r2 with
                | String d r3 =>
                    if Ascii.eqb d "," then
                      match parse_members f r3 with
                      | Some (ms, r4) => Some ((k, v) :: ms, r4)
                      | None => None
                      end
                    else if Ascii.eqb d "}" then Some ([(k, v)], r3)
                    else None
                | EmptyString => None
                end
            | None => None
            end
          else None
      | EmptyString => None
      end
  | None => None
  end.
Proof. reflexivity. Qed.

(** Every written value begins with a character that starts a value. *)
Lemma stringify_num_start (n : Z) :
  exists c s, stringify_num n = String c s /\
              (is_digit c = true \/ c = "-"%char).
Proof.
  unfold stringify_num. destruct n as [|p|p].
  - exists "0"%char, EmptyString. split; [reflexivity | now left].
  - change (Z.to_int (Z.pos p)) with (Pos (Pos.to_uint p)).
    pose proof (DecimalPos.Unsigned.to_uint_nonnil p) as Hnn.
    unfold NilZero.string_of_int. rewrite (string_of_uint_nilzero _ Hnn).
    destruct (string_of_uint_nonempty _ Hnn) as (c & s & Hs & Hc).
    exists c, s. split; [exact Hs | now left].
  - change (Z.to_int (Z.neg p)) with (Neg (Pos.to_uint p)).
    eexists; eexists. split; [reflexivity | now right].
Qed.

Lemma digit_value_start (c : ascii) :
  is_digit c = true \/ c = "-"%char -> value_start c = true.
Proof.
  unfold value_start. intros [-> | ->]; reflexivity.
Qed.

Lemma stringify_start (v : Json) :
  exists c s, stringify v = String c s /\ value_start c = true.
Proof.
  destruct v as [ | [] | n | s | xs | ms ];
    try (eexists; eexists; split; reflexivity).
  destruct (stringify_num_start n) as (c & s & Hs & Hc).
  exists c, s. split; [exact Hs | now apply digit_value_start].
Qed.

(** Members with pairwise distinct keys make the object they list. *)
Lemma obj_set_fresh (k : string) (v : Json) (o : list (string * Json)) :
  Forall (fun kv => String.eqb (fst kv) k = false) o ->
  obj_set k v o = o ++ [(k, v)].
Proof.
  induction 1 as [|[k' v'] o Hk _ IH]; simpl; [reflexivity|].
  simpl in Hk. rewrite Hk. now rewrite IH.
Qed.

Lemma distinct_app_fresh (l1 l2 : list string) (k : string) :
  distinct (l1 ++ k :: l2) = true ->
  Forall (fun k' => String.eqb k' k = false) l1.
Proof.
  induction l1 as [|k' l1 IH]; simpl; intros Hd; [constructor|].
  apply andb_true_iff in Hd as [Hk Hd]. constructor; [|now apply IH].
  apply negb_true_iff in Hk. rewrite existsb_app in Hk.
  apply orb_false_iff in Hk as [_ Hk]. simpl in Hk.
  now apply orb_false_iff in Hk as [Hk _].
Qed.

Lemma obj_of_members_acc (ms acc : list (string * Json)) :
  distinct (map fst (acc ++ ms)) = true ->
  fold_left (fun o kv => obj_set (fst kv) (snd kv) o) ms acc = acc ++ ms.
Proof.
  revert acc. induction ms as [|[k v] ms IH]; intros acc Hd; simpl.
  - now rewrite app_nil_r.
  - rewrite obj_set_fresh.
    + rewrite IH; rewrite <- app_assoc; [reflexivity | exact Hd].
    + rewrite map_app in Hd. simpl in Hd.
      apply distinct_app_fresh in Hd.
      apply Forall_map in Hd. exact Hd.
Qed.

Lemma obj_of_members_distinct (ms : list (string * Json)) :
  distinct (map fst ms) = true -> obj_of_members ms = ms.
Proof. intros Hd. unfold obj_of_members. now rewrite obj_of_members_acc. Qed.

(** Elements and members are read back when each value is. *)
Lemma parse_elements_stringify (l : list Json) :
  forall x : Json,
    Forall reads_back (x :: l) ->
    forall (f : nat) (rest : string),
      (weight_elements (x :: l) <= f)%nat ->
      parse_elements f (stringify_elements (x :: l) +:+ String "]" rest) =
        Some (x :: l, rest).
Proof.
  induction l as [|y l IH]; intros x Hall f rest Hf;
    inversion Hall as [|? ? Hx Hl]; subst;
    change (weight_elements (x :: ?t)) with (S (weight x + weight_elements t)) in Hf;
    (destruct f as [|f]; [lia|]); rewrite parse_elements_step.
  - change (stringify_elements [x]) with (stringify x).
    rewrite (Hx f (String "]" rest)) by (reflexivity || lia).
    reflexivity.
  - change (stringify_elements (x :: y :: l))
      with (stringify x +:+ "," +:+ stringify_elements (y :: l)).
    rewrite string_app_assoc.
    change (("," +:+ stringify_elements (y :: l)) +:+ String "]" rest)
      with (String "," (stringify_elements (y :: l) +:+ String "]" rest)).
    rewrite (Hx f) by (reflexivity || lia).
    change (skip_ws (String "," ?t)) with (String "," t).
    change (Ascii.eqb "," ",") with true. cbv iota.
    rewrite (IH y Hl f rest) by lia. reflexivity.
Qed.

Lemma member_text (k : string) (x : Json) (tail : string) :
  (quote k +:+ ":" +:+ stringify x) +:+ tail =
  String dquote
    (escape k +:+ String dquote (String ":" (stringify x +:+ tail))).
Proof.
  unfold quote. simpl. f_equal.
  rewrite !string_app_assoc. reflexivity.
Qed.

Lemma parse_members_stringify (l : list (string * Json)) :
  forall (k : string) (x : Json),
    Forall (fun kv => reads_back (snd kv)) ((k, x) :: l) ->
    forall (f : nat) (rest : string),
      (weight_members ((k, x) :: l) <= f)%nat ->
      parse_members f (stringify_members ((k, x) :: l) +:+ String "}" rest) =
        Some ((k, x) :: l, rest).
Proof.
  induction l as [|[k' y] l IH]; intros k x Hall f rest Hf;
    inversion Hall as [|? ? Hx Hl]; subst; simpl in Hx;
    change (weight_members ((k, x) :: ?t))
      with (S (weight x + weight_members t)) in Hf;
    (destruct f as [|f]; [lia|]).
  - change (stringify_members [(k, x)]) with (quote k +:+ ":" +:+ stringify x).
    rewrite member_text, parse_members_step, parse_string_body_escape.
    change (skip_ws (String ":" ?t)) with (String ":" t).
    change (Ascii.eqb ":" ":") with true. cbv iota.
    rewrite (Hx f (String "}" rest)) by (reflexivity || lia).
    reflexivity.
  - change (stringify_members ((k, x) :: (k', y) :: l))
      with (quote k +:+ ":" +:+ stringify x +:+ ","
            +:+ stringify_members ((k', y) :: l)).
    replace ((quote k +:+ ":" +:+ stringify x +:+ ","
              +:+ stringify_members ((k', y) :: l)) +:+ String "}" rest)
      with ((quote k +:+ ":" +:+ stringify x) +:+
            String "," (stringify_members ((k', y) :: l) +:+ String "}" rest))
      by (rewrite !string_app_assoc; reflexivity).
    rewrite member_text, parse_members_step, parse_string_body_escape.
    change (skip_ws (String ":" ?t)) with (String ":" t).
    change (Ascii.eqb ":" ":") with true. cbv iota.
    rewrite (Hx f) by (reflexivity || lia).
    change (skip_ws (String "," ?t)) with (String "," t).
    change (Ascii.eqb "," ",") with true. cbv iota.
    rewrite (IH k' y Hl f rest) by lia. reflexivity.
Qed.

Lemma well_formed_elements_Forall (xs : list Json) :
  well_formed_elements xs = true -> Forall (fun x => well_formed x = true) xs.
Proof.
  induction xs as [|x xs IH]; simpl; intros Hw; constructor;
    apply andb_true_iff in Hw as [Hx Hxs]; [exact Hx | now apply IH].
Qed.

Lemma well_formed_members_Forall (ms : list (string * Json)) :
  well_formed_members ms = true ->
  Forall (fun kv => well_formed (snd kv) = true) ms.
Proof.
  induction ms as [|[k x] ms IH]; simpl; intros Hw; constructor;
    apply andb_true_iff in Hw as [Hx Hms]; [exact Hx | now apply IH].
Qed.

(** Every well-formed value is read back from its text. *)
Lemma well_formed_reads_back (v : Json) :
  well_formed v = true -> reads_back v.
Proof.
  induction v as [ | b | n | s | xs IHxs | ms IHms ] using Json_induction;
    intros Hw f rest Hf Hd Hfr;
    (destruct f as [|f]; [simpl in Hf; lia|]).
  - apply parse_value_null.
  - destruct b; [apply parse_value_true | apply parse_value_false].
  - change (stringify (JsonNum n)) with (stringify_num n).
    pose proof (parse_number_stringify n rest Hd Hfr) as Hn.
    destruct (stringify_num_start n) as (c & s & Hs & Hc).
    rewrite Hs in *.
    change (String c s +:+ rest) with (String c (s +:+ rest)) in *.
    rewrite (parse_value_number f c _ Hc), Hn. reflexivity.
  - change (stringify (JsonStr s)) with (quote s).
    destruct (parse_string_body_quote s rest) as (body & Hq & Hb).
    rewrite Hq, parse_value_string, Hb. reflexivity.
  - rewrite weight_arr in Hf. rewrite well_formed_arr in Hw.
    destruct xs as [|x l]; [apply parse_value_empty_array|].
    assert (Hall : Forall reads_back (x :: l)).
    { apply well_formed_elements_Forall in Hw.
      rewrite Forall_forall in *. intros y Hy. apply IHxs; [exact Hy|].
      now apply Hw. }
    rewrite stringify_arr.
    replace (("[" +:+ stringify_elements (x :: l) +:+ "]") +:+ rest)
      with (String "[" (stringify_elements (x :: l) +:+ String "]" rest))
      by (change ("[" +:+ ?a) with (String "[" a);
          change (String "[" ?a +:+ ?b) with (String "[" (a +:+ b));
          rewrite string_app_assoc; reflexivity).
    pose proof (parse_elements_stringify l x Hall f rest ltac:(lia)) as He.
    assert (Hstart : exists c t, stringify_elements (x :: l) = String c t /\
                                 value_start c = true).
    { destruct (stringify_start x) as (c & t & Hs & Hc).
      destruct l as [|y l].
      - exists c, t. split; [exact Hs | exact Hc].
      - exists c, (t +:+ "," +:+ stringify_elements (y :: l)).
        split; [|exact Hc].
        change (stringify_elements (x :: y :: l))
          with (stringify x +:+ "," +:+ stringify_elements (y :: l)).
        now rewrite Hs. }
    destruct Hstart as (c & t & Hs & Hc). rewrite Hs in *.
    change (String c t +:+ ?b) with (String c (t +:+ b)) in *.
    rewrite (parse_value_array f c _ Hc), He. reflexivity.
  - rewrite weight_obj in Hf. rewrite well_formed_obj in Hw.
    apply andb_true_iff in Hw as [Hdist Hw].
    destruct ms as [|[k x] l]; [apply parse_value_empty_object|].
    assert (Hall : Forall (fun kv => reads_back (snd kv)) ((k, x) :: l)).
    { apply well_formed_members_Forall in Hw.
      rewrite Forall_forall in *. intros y Hy. apply IHms; [exact Hy|].
      now apply Hw. }
    rewrite stringify_obj.
    replace (("{" +:+ stringify_members ((k, x) :: l) +:+ "}") +:+ rest)
      with (String "{" (stringify_members ((k, x) :: l) +:+ String "}" rest))
      by (change ("{" +:+ ?a) with (String "{" a);
          change (String "{" ?a +:+ ?b) with (String "{" (a +:+ b));
          rewrite string_app_assoc; reflexivity).
    pose proof (parse_members_stringify l k x Hall f rest ltac:(lia)) as Hm.
    assert (Hstart : exists t, stringify_members ((k, x) :: l) = String dquote t).
    { destruct l as [|[k' y] l]; eexists; reflexivity. }
    destruct Hstart as (t & Hs). rewrite Hs in *.
    change (String dquote t +:+ ?b) with (String dquote (t +:+ b)) in *.
    rewrite parse_value_object, Hm, (obj_of_members_distinct _ Hdist).
    reflexivity.
Qed.

(** The fuel [parse] starts with is enough for the text of any value. *)
Lemma string_app_nil_r (s : string) : s +:+ "" = s.
Proof. induction s as [|c s IH]; simpl; [reflexivity | now rewrite IH]. Qed.

Lemma weight_elements_bound (xs : list Json) :
  Forall (fun x => (weight x <= 2 * String.length (stringify x))%nat) xs ->
  (weight_elements xs <= 2 * String.length (stringify_elements xs) + 1)%nat.
Proof.
  induction 1 as [|x l Hx Hl IH]; [simpl; lia|].
  change (weight_elements (x :: l)) with (S (weight x + weight_elements l)).
  destruct l as [|y l].
  - change (stringify_elements [x]) with (stringify x). simpl. lia.
  - change (stringify_elements (x :: y :: l))
      with (stringify x +:+ "," +:+ stringify_elements (y :: l)).
    set (tail := stringify_elements (y :: l)) in *.
    rewrite !string_app_length. simpl String.length. lia.
Qed.

Lemma weight_members_bound (ms : list (string * Json)) :
  Forall (fun kv =>
    (weight (snd kv) <= 2 * String.length (stringify (snd kv)))%nat) ms ->
  (weight_members ms <= 2 * String.length (stringify_members ms) + 1)%nat.
Proof.
  induction 1 as [|[k x] l Hx Hl IH]; [simpl; lia|]. simpl in Hx.
  change (weight_members ((k, x) :: l)) with (S (weight x + weight_members l)).
  destruct l as [|[k' y] l].
  - change (stringify_members [(k, x)]) with (quote k +:+ ":" +:+ stringify x).
    rewrite !string_app_length. simpl. lia.
  - change (stringify_members ((k, x) :: (k', y) :: l))
      with (quote k +:+ ":" +:+ stringify x +:+ ","
            +:+ stringify_members ((k', y) :: l)).
    set (tail := stringify_members ((k', y) :: l)) in *.
    rewrite !string_app_length. simpl String.length. lia.
Qed.

Lemma weight_bound (v : Json) :
  (weight v <= 2 * String.length (stringify v))%nat.
Proof.
  induction v as [ | b | n | s | xs IHxs | ms IHms ] using Json_induction.
  - simpl. lia.
  - destruct b; simpl; lia.
  - change (stringify (JsonNum n)) with (stringify_num n).
    destruct (stringify_num_start n) as (c & s & -> & _). simpl. lia.
  - simpl. lia.
  - rewrite weight_arr, stringify_arr, !string_app_length.
    pose proof (weight_elements_bound xs IHxs) as Hb.
    set (body := stringify_elements xs) in *. simpl String.length. lia.
  - rewrite weight_obj, stringify_obj, !string_app_length.
    pose proof (weight_members_bound ms IHms) as Hb.
    set (body := stringify_members ms) in *. simpl String.length. lia.
Qed.

(** [JSON.parse(JSON.stringify(v))] is [v] for every well-formed value. *)
Theorem parse_stringify (v : Json) :
  well_formed v = true -> parse (stringify v) = Some v.
Proof.
  intros Hw. unfold parse.
  pose proof (well_formed_reads_back v Hw
                (2 * String.length (stringify v) + 2)%nat "") as Hr.
  rewrite string_app_nil_r in Hr. rewrite Hr; [reflexivity | | reflexivity..].
  pose proof (weight_bound v). lia.
Qed.

End JsonFacts.

(** * Properties of the persisted-state store *)

Section StoreFacts.
Import Js Json PersistedStateStore.

Context {T : Type} `{Codec T}.

Ltac store_step :=
  unfold completion_of, world_after, initialize, start, set, read_back,
    storage_get, storage_set, storage_remove, log_error, put_memory, notify,
    restart, try_catch, bind, gets, ret, throw, lift, modify; simpl.

(** What [set] leaves behind. *)
Lemma set_world (name : string) (arg : NextValue T) (w : World T) :
  let next := match arg with Literal v => v | Updater f => f (memory w) end in
  set name arg w =
    (Normal tt,
     {| storage :=
          {| items := <[name := serialize next]> (items (storage w));
             issued := issued (storage w) ++ [SetItem name (serialize next)] |};
        console_error := console_error w;
        memory := next;
        observers := observers w;
        delivered := delivered w ++ map (fun o => (o, next)) (observers w) |}).
Proof. destruct arg; reflexivity. Qed.

(** What [initialize] does, case by case. *)
Lemma initialize_absent (name : string) (w : World T) :
  items (storage w) !! name = None ->
  initialize name w =
    (Normal empty_value,
     {| storage := {| items := items (storage w);
                      issued := issued (storage w) ++ [GetItem name] |};
        console_error := console_error w; memory := memory w;
        observers := observers w; delivered := delivered w |}).
Proof. intros Hl. store_step. rewrite Hl. reflexivity. Qed.

Lemma initialize_parseable (name text : string) (v : T) (w : World T) :
  items (storage w) !! name = Some text ->
  deserialize text = Some v ->
  initialize name w =
    (Normal v,
     {| storage := {| items := items (storage w);
                      issued := issued (storage w) ++ [GetItem name] |};
        console_error := console_error w; memory := memory w;
        observers := observers w; delivered := delivered w |}).
Proof. intros Hl Hd. store_step. rewrite Hl. simpl. rewrite Hd. reflexivity. Qed.

Lemma initialize_corrupt (name text : string) (w : World T) :
  items (storage w) !! name = Some text ->
  deserialize text = None ->
  initialize name w =
    (Normal empty_value,
     {| storage :=
          {| items := delete name (items (storage w));
             issued := (issued (storage w) ++ [GetItem name]) ++ [RemoveItem name] |};
        console_error :=
          console_error w ++ [SyntaxError "Unexpected token in JSON"];
        memory := memory w;
        observers := observers w; delivered := delivered w |}).
Proof. intros Hl Hd. store_step. rewrite Hl. simpl. rewrite Hd. reflexivity. Qed.

(** [initialize] returns normally on every world. *)
Lemma initialize_returns (name : string) (w : World T) :
  exists v, completion_of (initialize name) w = Normal v.
Proof.
  unfold completion_of.
  destruct (items (storage w) !! name) as [text|] eqn:Hl.
  - destruct (deserialize text) as [v|] eqn:Hd.
    + exists v. now rewrite (initialize_parseable name text v).
    + exists empty_value. now rewrite (initialize_corrupt name text).
  - exists empty_value. now rewrite initialize_absent.
Qed.

(** C7: after [set] with a literal serializable value [v], a restarted
    process over the same durable storage gets [v] back from
    [initialize], and returns normally. *)
Theorem set_then_initialize_round_trip
    (name : string) (v : T) (w w2 : World T) :
  serializable v ->
  items (storage w2) = items (storage (world_after (set name (Literal v)) w)) ->
  completion_of (initialize name) w2 = Normal v /\
  completion_of (initialize name)
    (restart (world_after (set name (Literal v)) w)) = Normal v.
Proof.
  intros Hs Hw2.
  assert (Hgen : forall w' : World T,
            items (storage w') = <[name := serialize v]> (items (storage w)) ->
            completion_of (initialize name) w' = Normal v).
  { intros w' Hw'. unfold completion_of.
    rewrite (initialize_parseable name (serialize v) v); [reflexivity| |exact Hs].
    rewrite Hw'. apply lookup_insert_eq. }
  unfold world_after in *. rewrite (set_world name (Literal v) w) in *.
  simpl in *. split; apply Hgen; [exact Hw2 | reflexivity].
Qed.

(** C8: when storage holds under the key of the slot a text that is not
    parseable as the expected structure, [initialize] returns the empty
    value, returns normally, logs one error, issues the removal of the
    key, and the key is gone from storage. *)
Theorem initialize_corrupt_recovers (name text : string) (w : World T) :
  items (storage w) !! name = Some text ->
  deserialize text = None ->
  completion_of (initialize name) w = Normal empty_value /\
  (exists e,
     console_error (world_after (initialize name) w) = console_error w ++ [e]) /\
  issued (storage (world_after (initialize name) w)) =
    issued (storage w) ++ [GetItem name; RemoveItem name] /\
  items (storage (world_after (initialize name) w)) !! name = None.
Proof.
  intros Hl Hd. unfold completion_of, world_after.
  rewrite (initialize_corrupt name text w Hl Hd). simpl.
  split; [reflexivity|]. split; [eexists; reflexivity|].
  split; [now rewrite <- app_assoc | apply lookup_delete_eq].
Qed.

(** Any [set] commits the value it computed from the in-memory value of
    the moment, both in memory and in storage. *)
Lemma set_commits (name : string) (arg : NextValue T) (w : World T) :
  let next := match arg with Literal v => v | Updater f => f (memory w) end in
  completion_of (set name arg) w = Normal tt /\
  memory (world_after (set name arg) w) = next /\
  items (storage (world_after (set name arg) w)) !! name = Some (serialize next).
Proof.
  intros next. unfold completion_of, world_after.
  rewrite (set_world name arg w). simpl.
  split; [reflexivity|]. split; [reflexivity | apply lookup_insert_eq].
Qed.

(** Two updaters in a row: the second sees what the first committed. *)
Lemma set_twice (name : string) (f g : T -> T) (w : World T) :
  memory (world_after (set name (Updater g))
            (world_after (set name (Updater f)) w)) = g (f (memory w)).
Proof.
  unfold world_after. rewrite !set_world. reflexivity.
Qed.

(** Each committed [set] notifies every observer once, so two [set]s of
    the same literal notify twice and leave that literal stored. *)
Lemma set_same_literal_twice (name : string) (x : T) (w : World T) :
  let w2 := world_after (set name (Literal x))
              (world_after (set name (Literal x)) w) in
  delivered w2 =
    (delivered w ++ map (fun o => (o, x)) (observers w))
      ++ map (fun o => (o, x)) (observers w) /\
  items (storage w2) !! name = Some (serialize x) /\
  memory w2 = x.
Proof.
  intros w2. unfold w2, world_after. rewrite !set_world. simpl.
  split; [reflexivity|]. split; [apply lookup_insert_eq | reflexivity].
Qed.

(** An absent key gives the empty value and nothing is written back. *)
Lemma initialize_absent_no_write (name : string) (w : World T) :
  items (storage w) !! name = None ->
  completion_of (initialize name) w = Normal empty_value /\
  items (storage (world_after (initialize name) w)) = items (storage w) /\
  issued (storage (world_after (initialize name) w)) =
    issued (storage w) ++ [GetItem name].
Proof.
  intros Hl. unfold completion_of, world_after.
  rewrite (initialize_absent name w Hl). repeat split.
Qed.

End StoreFacts.

Section CartFacts.
Import Js Json PersistedStateStore.

Context {A : Type} `{Codec (list A)}.

(** C9: with [[a]] in memory, [set] with the updater that appends [b]
    leaves [[a; b]] in memory and the serialized [[a; b]] in storage
    under the key of the slot. *)
Theorem set_functional_update_appends
    (name : string) (a b : A) (w : World (list A)) :
  memory w = [a] ->
  completion_of (set name (Updater (fun prev => prev ++ [b]))) w = Normal tt /\
  memory (world_after (set name (Updater (fun prev => prev ++ [b]))) w) =
    [a; b] /\
  items (storage (world_after (set name (Updater (fun prev => prev ++ [b]))) w))
    !! name = Some (serialize [a; b]).
Proof.
  intros Hm. unfold completion_of, world_after.
  rewrite (set_world name (Updater (fun prev => prev ++ [b])) w). simpl.
  rewrite Hm. simpl.
  split; [reflexivity|]. split; [reflexivity | apply lookup_insert_eq].
Qed.

End CartFacts.

Section CartExamples.
Import Js Json PersistedStateStore.

(** Every cart of well-formed items is serializable, so the round trip of
    C7 holds for all of them. *)
Lemma cart_serializable (cart : list Json) :
  well_formed_elements cart = true -> serializable cart.
Proof.
  intros Hw. unfold serializable.
  change (match parse (stringify (JsonArr cart)) with
          | Some (JsonArr xs) => Some xs
          | _ => None
          end = Some cart).
  rewrite (parse_stringify (JsonArr cart)); [reflexivity | exact Hw].
Qed.

Lemma cart_round_trip (cart : list Json) (w : World (list Json)) :
  well_formed_elements cart = true ->
  completion_of (initialize "cart")
    (restart (world_after (set "cart" (Literal cart)) w)) = Normal cart.
Proof.
  intros Hw. unfold completion_of, world_after.
  rewrite (set_world "cart" (Literal cart) w).
  rewrite (initialize_parseable "cart" (serialize cart) cart);
    [reflexivity | apply lookup_insert_eq | now apply cart_serializable].
Qed.

Lemma set_then_initialize_round_trip_witness :
  let v := [JsonObj [("_id", JsonStr "y")]] in
  let w : World (list Json) := page_load (<["cart" := "[]"]> ∅) in
  let w1 := world_after (set "cart" (Literal v)) w in
  (serializable v /\ items (storage (restart w1)) = items (storage w1)) /\
  completion_of (initialize "cart") (restart w1) = Normal v /\
  completion_of (initialize "cart") (restart w1) = Normal v.
Proof.
  intros v w w1.
  assert (Hs : serializable v) by reflexivity.
  split; [split; [exact Hs | reflexivity] |].
  exact (set_then_initialize_round_trip "cart" v w (restart w1) Hs eq_refl).
Defined.

Lemma initialize_corrupt_recovers_witness :
  let w : World (list Json) := page_load (<["cart" := "{not-json"]> ∅) in
  (items (storage w) !! "cart" = Some "{not-json" /\
   deserialize (T := list Json) "{not-json" = None) /\
  completion_of (initialize "cart") w = Normal [] /\
  (exists e,
     console_error (world_after (initialize "cart") w) = console_error w ++ [e]) /\
  issued (storage (world_after (initialize "cart") w)) =
    issued (storage w) ++ [GetItem "cart"; RemoveItem "cart"] /\
  items (storage (world_after (initialize "cart") w)) !! "cart" = None.
Proof.
  intros w. split; [split; reflexivity |].
  exact (initialize_corrupt_recovers "cart" "{not-json" w eq_refl eq_refl).
Defined.

Lemma set_functional_update_appends_witness :
  let a := JsonObj [("_id", JsonStr "seed")] in
  let b := JsonObj [("_id", JsonStr "x")] in
  let w : World (list Json) :=
    world_after (start "cart") (page_load (<["cart" := serialize [a]]> ∅)) in
  memory w = [a] /\
  completion_of (set "cart" (Updater (fun prev => prev ++ [b]))) w = Normal tt /\
  memory (world_after (set "cart" (Updater (fun prev => prev ++ [b]))) w) =
    [a; b] /\
  items (storage (world_after (set "cart" (Updater (fun prev => prev ++ [b]))) w))
    !! "cart" = Some (stringify (JsonArr [a; b])).
Proof.
  intros a b w.
  assert (Hm : memory w = [a]) by reflexivity.
  split; [exact Hm |].
  exact (set_functional_update_appends "cart" a b w Hm).
Defined.

End CartExamples.

(** * Further properties of the two middlewares and of the guarded route *)

Section AuthGateMore.
Import Js AuthGate.

(** X1: a header that is the empty string is handled like a missing one:
    401 with the missing-token body, one line on the console, and neither
    the verification primitive nor [next] is called. *)
Theorem requireSignIn_empty_header (E : Env) (w : World) :
  authorization (req w) = Some "" ->
  completion_of (requireSignIn E) w = Normal tt /\
  sent (res (world_after (requireSignIn E) w)) =
    sent (res w) ++
    [(401, [("success", JBool false);
            ("message", JStr "Unauthorized: Missing token")])] /\
  console (world_after (requireSignIn E) w) =
    console w ++ [LogStr "Missing authorization token"] /\
  verify_calls (world_after (requireSignIn E) w) = verify_calls w /\
  next_calls (world_after (requireSignIn E) w) = next_calls w.
Proof.
  intros Hh. unfold completion_of, world_after.
  rewrite requireSignIn_falsy by now rewrite Hh.
  repeat split.
Qed.

Lemma requireSignIn_empty_header_witness :
  let w := arrival {| authorization := Some ""; user := None |} in
  authorization (req w) = Some "" /\
  completion_of (requireSignIn sample_env) w = Normal tt /\
  sent (res (world_after (requireSignIn sample_env) w)) =
    [(401, [("success", JBool false);
            ("message", JStr "Unauthorized: Missing token")])] /\
  console (world_after (requireSignIn sample_env) w) =
    [LogStr "Missing authorization token"] /\
  verify_calls (world_after (requireSignIn sample_env) w) = [] /\
  next_calls (world_after (requireSignIn sample_env) w) = 0%nat.
Proof.
  intros w. split; [reflexivity|].
  exact (requireSignIn_empty_header sample_env w eq_refl).
Defined.

(** X2: [requireSignIn] calls the verification primitive at most once:
    not at all for a missing or empty header, and otherwise once, on the
    token taken from the header and the secret of the process. *)
Theorem requireSignIn_verifies_once (E : Env) (w : World) :
  verify_calls (world_after (requireSignIn E) w) =
    verify_calls w ++
    match authorization (req w) with
    | None => []
    | Some h =>
        if string_truthy h then [(extract_token h, JWT_SECRET E)] else []
    end.
Proof.
  unfold world_after.
  destruct (requireSignIn_cases E w) as [Hf | (h & Hh & Ht & [[e Hv] | [c Hv]])].
  - rewrite (requireSignIn_falsy E w Hf). simpl.
    destruct (authorization (req w)) as [h|]; simpl in *.
    + apply negb_true_iff in Hf. rewrite Hf. now rewrite app_nil_r.
    + now rewrite app_nil_r.
  - rewrite (requireSignIn_rejected E w h e Hh Ht Hv). simpl.
    now rewrite Hh, Ht.
  - rewrite (requireSignIn_verified E w h c Hh Ht Hv). simpl.
    now rewrite Hh, Ht.
Qed.

Lemma startsWith_split (p s : string) :
  startsWith p s = true -> s = p +:+ substring_from (String.length p) s.
Proof.
  revert s. induction p as [|a p IH]; intros s Hp; [reflexivity|].
  destruct s as [|b s]; [discriminate|]. simpl in Hp.
  destruct (Ascii.eqb_spec a b) as [-> | _]; [|discriminate].
  change (String b s = String b (p +:+ substring_from (String.length p) s)).
  f_equal. now apply IH.
Qed.

(** X3: the token taken from a header is the rest of the header after
    one leading [Bearer ] (capital B, one space), and the whole header
    when it does not begin so. *)
Theorem extract_token_rest (h : string) :
  (startsWith "Bearer " h = true /\ h = "Bearer " +:+ extract_token h) \/
  (startsWith "Bearer " h = false /\ extract_token h = h).
Proof.
  unfold extract_token. destruct (startsWith "Bearer " h) eqn:Hp.
  - left. split; [reflexivity|]. now apply startsWith_split.
  - right. split; reflexivity.
Qed.

(** X4: whatever [requireSignIn] sends has status 401, [success] false
    and no [error] property: an error thrown by the verification
    primitive goes to the console, not to the client. *)
Theorem requireSignIn_keeps_error_from_client (E : Env) (w : World) :
  exists new : list (Z * JsObject),
    sent (res (world_after (requireSignIn E) w)) = sent (res w) ++ new /\
    Forall (fun resp =>
              fst resp = 401 /\
              get_prop "success" (snd resp) = JBool false /\
              get_prop "error" (snd resp) = JUndefined) new /\
    (forall h e,
       authorization (req w) = Some h -> h <> "" ->
       jwt_verify E (extract_token h) (JWT_SECRET E) = Throw e ->
       console (world_after (requireSignIn E) w) = console w ++ [LogErr e]).
Proof.
  unfold world_after.
  destruct (requireSignIn_cases E w) as [Hf | (h & Hh & Ht & [[e Hv] | [c Hv]])].
  - rewrite (requireSignIn_falsy E w Hf). simpl.
    exists [(401, missing_token_body)]. split; [reflexivity|]. split.
    + repeat constructor.
    + intros h e Hh Hne _. rewrite Hh in Hf. simpl in Hf.
      apply string_truthy_nonempty in Hne. rewrite Hne in Hf. discriminate.
  - rewrite (requireSignIn_rejected E w h e Hh Ht Hv). simpl.
    exists [(401, invalid_token_body)]. split; [reflexivity|]. split.
    + repeat constructor.
    + intros h' e' Hh' _ Hv'. rewrite Hh in Hh'. injection Hh' as <-.
      rewrite Hv in Hv'. now injection Hv' as <-.
  - rewrite (requireSignIn_verified E w h c Hh Ht Hv). simpl.
    exists []. split; [now rewrite app_nil_r|]. split; [constructor|].
    intros h' e' Hh' _ Hv'. rewrite Hh in Hh'. injection Hh' as <-.
    rewrite Hv in Hv'. discriminate.
Qed.

(** X5: [requireSignIn] touches the request only when it lets it pass:
    if [next] is not called the request is as it was, and if [next] is
    called only [req.user] has changed and the response is untouched. *)
Theorem requireSignIn_touches_request_only_on_success (E : Env) (w : World) :
  (next_calls (world_after (requireSignIn E) w) = next_calls w /\
   req (world_after (requireSignIn E) w) = req w) \/
  (next_calls (world_after (requireSignIn E) w) = S (next_calls w) /\
   authorization (req (world_after (requireSignIn E) w)) =
     authorization (req w) /\
   res (world_after (requireSignIn E) w) = res w /\
   console (world_after (requireSignIn E) w) = console w).
Proof.
  unfold world_after.
  destruct (requireSignIn_cases E w) as [Hf | (h & Hh & Ht & [[e Hv] | [c Hv]])].
  - left. now rewrite (requireSignIn_falsy E w Hf).
  - left. now rewrite (requireSignIn_rejected E w h e Hh Ht Hv).
  - right. now rewrite (requireSignIn_verified E w h c Hh Ht Hv).
Qed.

(** [isAdmin_admits] is false exactly in the four rejecting cases. *)
Lemma isAdmin_admits_cases (E : Env) (w : World) :
  (isAdmin_admits E w = true /\
   exists c u, user (req w) = Some c /\
               findById E (_id c) = Normal (Some u) /\ role u = JNum 1) \/
  (isAdmin_admits E w = false /\
   (user (req w) = None \/
    exists c, user (req w) = Some c /\
      ((exists e, findById E (_id c) = Throw e) \/
       findById E (_id c) = Normal None \/
       (exists u, findById E (_id c) = Normal (Some u) /\ role u <> JNum 1)))).
Proof.
  unfold isAdmin_admits.
  destruct (user (req w)) as [c|]; [|right; split; [reflexivity | now left]].
  destruct (findById E (_id c)) as [[u|]|e] eqn:Hf.
  - unfold strict_eq. destruct (decide (role u = JNum 1)) as [Hr|Hr].
    + left. split; [now apply bool_decide_eq_true_2|].
      exists c, u. split; [reflexivity|]. split; [exact Hf | exact Hr].
    + right. split; [now apply bool_decide_eq_false_2|]. right. exists c.
      split; [reflexivity|]. right. right. exists u.
      split; [exact Hf | exact Hr].
  - right. split; [reflexivity|]. right. exists c. split; [reflexivity|].
    right. left. exact Hf.
  - right. split; [reflexivity|]. right. exists c. split; [reflexivity|].
    left. exists e. exact Hf.
Qed.

(** X6: [isAdmin] calls [next] exactly when the request carries claims,
    the store has a record for their subject and its role is strictly the
    number 1, and then it sends nothing; in every other case (no claims,
    failed lookup, no record, other role) it sends exactly one response,
    with status 401 and [success] false, and does not call [next]. *)
Theorem isAdmin_admits_exactly_when (E : Env) (w : World) :
  (isAdmin_admits E w = true /\
   next_calls (world_after (isAdmin E) w) = S (next_calls w) /\
   sent (res (world_after (isAdmin E) w)) = sent (res w)) \/
  (isAdmin_admits E w = false /\
   next_calls (world_after (isAdmin E) w) = next_calls w /\
   exists body,
     sent (res (world_after (isAdmin E) w)) = sent (res w) ++ [(401, body)] /\
     get_prop "success" body = JBool false).
Proof.
  unfold world_after.
  destruct (isAdmin_admits_cases E w)
    as [(Ha & c & u & Hu & Hf & Hr)
       | (Ha & [Hu | (c & Hu & [(e & Hf) | [Hf | (u & Hf & Hr)]])])].
  - left. rewrite (isAdmin_privileged E w c u Hu Hf Hr). now split.
  - right. rewrite (isAdmin_no_claims E w Hu). simpl.
    split; [exact Ha|]. split; [reflexivity|]. eexists. now split.
  - right. rewrite (isAdmin_lookup_fails E w c e Hu Hf). simpl.
    split; [exact Ha|]. split; [reflexivity|]. eexists. now split.
  - right. rewrite (isAdmin_no_record E w c Hu Hf). simpl.
    split; [exact Ha|]. split; [reflexivity|]. eexists. now split.
  - right. rewrite (isAdmin_not_privileged E w c u Hu Hf Hr). simpl.
    split; [exact Ha|]. split; [reflexivity|]. eexists. now split.
Qed.

(** X7: [isAdmin] trusts the claims it finds: it never calls the
    verification primitive and never changes the request. *)
Theorem isAdmin_leaves_request_and_verifier (E : Env) (w : World) :
  req (world_after (isAdmin E) w) = req w /\
  verify_calls (world_after (isAdmin E) w) = verify_calls w.
Proof.
  unfold world_after.
  destruct (isAdmin_admits_cases E w)
    as [(Ha & c & u & Hu & Hf & Hr)
       | (Ha & [Hu | (c & Hu & [(e & Hf) | [Hf | (u & Hf & Hr)]])])].
  - now rewrite (isAdmin_privileged E w c u Hu Hf Hr).
  - now rewrite (isAdmin_no_claims E w Hu).
  - now rewrite (isAdmin_lookup_fails E w c e Hu Hf).
  - now rewrite (isAdmin_no_record E w c Hu Hf).
  - now rewrite (isAdmin_not_privileged E w c u Hu Hf Hr).
Qed.

(** X8: the role test is strict: for a record whose role is anything but
    the number 1 (the string "1", true, undefined, another number)
    [isAdmin] answers 401 with [{success:false, message:"UnAuthorized
    Access"}], does not call [next] and logs nothing. *)
Theorem isAdmin_role_test_is_strict
    (E : Env) (w : World) (c : Claims) (u : User) :
  user (req w) = Some c ->
  findById E (_id c) = Normal (Some u) ->
  role u <> JNum 1 ->
  completion_of (isAdmin E) w = Normal tt /\
  sent (res (world_after (isAdmin E) w)) =
    sent (res w) ++
    [(401, [("success", JBool false); ("message", JStr "UnAuthorized Access")])] /\
  next_calls (world_after (isAdmin E) w) = next_calls w /\
  console (world_after (isAdmin E) w) = console w.
Proof.
  intros Hu Hf Hr. unfold completion_of, world_after.
  rewrite (isAdmin_not_privileged E w c u Hu Hf Hr). repeat split.
Qed.

Lemma isAdmin_role_test_is_strict_witness :
  let u := {| user_id := "u7"; name := "Seven"; role := JStr "1" |} in
  let E := {| jwt_verify := sample_verify; JWT_SECRET := Some "s3cret";
              findById := fun _ => Normal (Some u) |} in
  let c := sample_claims "u7" in
  let w := {| req := {| authorization := Some "Bearer t"; user := Some c |};
              res := fresh_response; console := [];
              next_calls := 0%nat; verify_calls := [] |} in
  (user (req w) = Some c /\ findById E (_id c) = Normal (Some u) /\
   role u <> JNum 1) /\
  completion_of (isAdmin E) w = Normal tt /\
  sent (res (world_after (isAdmin E) w)) =
    [(401, [("success", JBool false); ("message", JStr "UnAuthorized Access")])] /\
  next_calls (world_after (isAdmin E) w) = 0%nat /\
  console (world_after (isAdmin E) w) = [].
Proof.
  intros u E c w.
  assert (Hr : role u <> JNum 1) by discriminate.
  split; [split; [reflexivity | split; [reflexivity | exact Hr]] |].
  exact (isAdmin_role_test_is_strict E w c u eq_refl eq_refl Hr).
Defined.

(** X9: run on a request that [requireSignIn] has not populated,
    [isAdmin] fails closed whatever the store holds: reading [_id] of
    undefined throws before any lookup, and the catch clause answers 401
    with the TypeError in the body. *)
Theorem isAdmin_without_claims_fails_closed (E : Env) (w : World) :
  user (req w) = None ->
  completion_of (isAdmin E) w = Normal tt /\
  sent (res (world_after (isAdmin E) w)) =
    sent (res w) ++
    [(401, [("success", JBool false);
            ("error", JErr (TypeError
               "Cannot read properties of undefined (reading '_id')"));
            ("message", JStr "Error in admin middleware")])] /\
  next_calls (world_after (isAdmin E) w) = next_calls w.
Proof.
  intros Hu. unfold completion_of, world_after.
  rewrite (isAdmin_no_claims E w Hu). repeat split.
Qed.

Lemma isAdmin_without_claims_fails_closed_witness :
  let w := arrival {| authorization := Some "Bearer good"; user := None |} in
  user (req w) = None /\
  completion_of (isAdmin sample_env) w = Normal tt /\
  sent (res (world_after (isAdmin sample_env) w)) =
    [(401, [("success", JBool false);
            ("error", JErr (TypeError
               "Cannot read properties of undefined (reading '_id')"));
            ("message", JStr "Error in admin middleware")])] /\
  next_calls (world_after (isAdmin sample_env) w) = 0%nat.
Proof.
  intros w. split; [reflexivity|].
  exact (isAdmin_without_claims_fails_closed sample_env w eq_refl).
Defined.

(** The route, once the credential is accepted, is [isAdmin] on the world
    that [requireSignIn] leaves. *)
Lemma admin_route_verified
    (E : Env) (r : Request) (h : string) (c : Claims) :
  authorization r = Some h ->
  string_truthy h = true ->
  jwt_verify E (extract_token h) (JWT_SECRET E) = Normal c ->
  admin_route E (arrival r) =
    isAdmin E
      {| req := {| authorization := authorization r; user := Some c |};
         res := fresh_response;
         console := [];
         next_calls := 1%nat;
         verify_calls := [(extract_token h, JWT_SECRET E)] |}.
Proof.
  intros Hh Ht Hv.
  rewrite admin_route_goes_on.
  - unfold world_after.
    now rewrite (requireSignIn_verified E (arrival r) h c Hh Ht Hv).
  - unfold credential_accepted. simpl. now rewrite Hh, Ht, Hv.
Qed.

Lemma route_admits_accepted (E : Env) (r : Request) :
  route_admits E r = true -> credential_accepted E r = true.
Proof.
  unfold route_admits, credential_accepted.
  destruct (authorization r) as [h|]; [|discriminate].
  destruct (string_truthy h); [|discriminate]. simpl.
  now destruct (jwt_verify E (extract_token h) (JWT_SECRET E)).
Qed.

(** X10: on a route guarded by [requireSignIn] then [isAdmin], the
    handler behind the guards is reached (both call [next], nothing is
    sent) exactly when the header holds a token that verifies and the
    store has, for the subject of its claims, a record with role 1.  Every
    other request gets exactly one response, with status 401 and
    [success] false. *)
Theorem admin_route_reaches_handler_exactly_when (E : Env) (r : Request) :
  (route_admits E r = true /\
   next_calls (world_after (admin_route E) (arrival r)) = 2%nat /\
   sent (res (world_after (admin_route E) (arrival r))) = []) \/
  (route_admits E r = false /\
   (next_calls (world_after (admin_route E) (arrival r)) <= 1)%nat /\
   exists body,
     sent (res (world_after (admin_route E) (arrival r))) = [(401, body)] /\
     get_prop "success" body = JBool false).
Proof.
  destruct (credential_accepted E r) eqn:Hc.
  - unfold credential_accepted in Hc.
    destruct (authorization r) as [h|] eqn:Hh; [|discriminate].
    destruct (string_truthy h) eqn:Ht; [|discriminate]. simpl in Hc.
    destruct (jwt_verify E (extract_token h) (JWT_SECRET E)) as [c|e] eqn:Hv;
      [|discriminate].
    unfold world_after.
    rewrite (admin_route_verified E r h c Hh Ht Hv).
    unfold route_admits. rewrite Hh, Ht, Hv. simpl.
    set (w1 := {| req := {| authorization := Some h; user := Some c |};
                  res := fresh_response; console := [];
                  next_calls := 1%nat;
                  verify_calls := [(extract_token h, JWT_SECRET E)] |}).
    assert (Hu : user (req w1) = Some c) by reflexivity.
    destruct (findById E (_id c)) as [[u|]|e] eqn:Hf.
    + unfold strict_eq. destruct (decide (role u = JNum 1)) as [Hr|Hr].
      * left. rewrite (isAdmin_privileged E w1 c u Hu Hf Hr).
        split; [now apply bool_decide_eq_true_2 | now split].
      * right. rewrite (isAdmin_not_privileged E w1 c u Hu Hf Hr). simpl.
        split; [now apply bool_decide_eq_false_2|]. split; [lia|].
        eexists. now split.
    + right. rewrite (isAdmin_no_record E w1 c Hu Hf). simpl.
      split; [reflexivity|]. split; [lia|]. eexists. now split.
    + right. rewrite (isAdmin_lookup_fails E w1 c e Hu Hf). simpl.
      split; [reflexivity|]. split; [lia|]. eexists. now split.
  - right. split.
    { destruct (route_admits E r) eqn:Ha; [|reflexivity].
      apply route_admits_accepted in Ha. congruence. }
    unfold world_after. rewrite (admin_route_stops E (arrival r) Hc).
    destruct (requireSignIn_cases E (arrival r))
      as [Hf | (h & Hh & Ht & [[e Hv] | [c Hv]])].
    + rewrite (requireSignIn_falsy E _ Hf). simpl. split; [lia|].
      eexists. now split.
    + rewrite (requireSignIn_rejected E _ h e Hh Ht Hv). simpl. split; [lia|].
      eexists. now split.
    + unfold credential_accepted in Hc. simpl in Hh.
      rewrite Hh, Ht, Hv in Hc. discriminate.
Qed.

(** X11: a request whose token verifies but whose subject has a record
    with a role other than 1 passes [requireSignIn] and is stopped by
    [isAdmin]: the only response is 401 [{success:false,
    message:"UnAuthorized Access"}], the claims stay on the request, and
    the token was verified once. *)
Theorem admin_route_authenticated_not_admin
    (E : Env) (r : Request) (h : string) (c : Claims) (u : User) :
  authorization r = Some h ->
  h <> "" ->
  jwt_verify E (extract_token h) (JWT_SECRET E) = Normal c ->
  findById E (_id c) = Normal (Some u) ->
  role u <> JNum 1 ->
  sent (res (world_after (admin_route E) (arrival r))) =
    [(401, [("success", JBool false); ("message", JStr "UnAuthorized Access")])] /\
  next_calls (world_after (admin_route E) (arrival r)) = 1%nat /\
  user (req (world_after (admin_route E) (arrival r))) = Some c /\
  verify_calls (world_after (admin_route E) (arrival r)) =
    [(extract_token h, JWT_SECRET E)].
Proof.
  intros Hh Hne Hv Hf Hr. apply string_truthy_nonempty in Hne.
  unfold world_after. rewrite (admin_route_verified E r h c Hh Hne Hv).
  set (w1 := {| req := {| authorization := authorization r; user := Some c |};
                res := fresh_response; console := [];
                next_calls := 1%nat;
                verify_calls := [(extract_token h, JWT_SECRET E)] |}).
  assert (Hu : user (req w1) = Some c) by reflexivity.
  rewrite (isAdmin_not_privileged E w1 c u Hu Hf Hr). repeat split.
Qed.

Lemma admin_route_authenticated_not_admin_witness :
  let r := {| authorization := Some "Bearer good2"; user := None |} in
  let u := {| user_id := "u2"; name := "Customer"; role := JNum 0 |} in
  (authorization r = Some "Bearer good2" /\ "Bearer good2" <> "" /\
   jwt_verify sample_env (extract_token "Bearer good2") (JWT_SECRET sample_env) =
     Normal (sample_claims "u2") /\
   findById sample_env (_id (sample_claims "u2")) = Normal (Some u) /\
   role u <> JNum 1) /\
  sent (res (world_after (admin_route sample_env) (arrival r))) =
    [(401, [("success", JBool false); ("message", JStr "UnAuthorized Access")])] /\
  next_calls (world_after (admin_route sample_env) (arrival r)) = 1%nat /\
  user (req (world_after (admin_route sample_env) (arrival r))) =
    Some (sample_claims "u2") /\
  verify_calls (world_after (admin_route sample_env) (arrival r)) =
    [(extract_token "Bearer good2", JWT_SECRET sample_env)].
Proof.
  intros r u.
  assert (Hne : "Bearer good2" <> "") by discriminate.
  assert (Hr : role u <> JNum 1) by discriminate.
  split.
  { split; [reflexivity|]. split; [exact Hne|]. split; [reflexivity|].
    split; [reflexivity | exact Hr]. }
  exact (admin_route_authenticated_not_admin sample_env r "Bearer good2"
           (sample_claims "u2") u eq_refl Hne eq_refl eq_refl Hr).
Defined.

End AuthGateMore.

(** * Properties of the storage doubles of the cart tests *)

Section FixtureFacts.
Import Js Json CartTestFixtures.




Lemma run_calls_snoc (cs : list StorageCall) (c : StorageCall) (d : Double) :
  run_calls (cs ++ [c]) d = run_call c (run_calls cs d).
Proof. unfold run_calls. now rewrite fold_left_app. Qed.

Lemma run_call_impl (c : StorageCall) (d : Double) :
  getItem_impl (run_call c d) = getItem_impl d.
Proof. now destruct c. Qed.

Lemma run_call_writes (c : StorageCall) (d : Double) :
  setItem_calls (run_call c d) = setItem_calls d ++ writes_of [c].
Proof. destruct c; simpl; now rewrite ?app_nil_r. Qed.

Lemma writes_of_app (cs1 cs2 : list StorageCall) :
  writes_of (cs1 ++ cs2) = writes_of cs1 ++ writes_of cs2.
Proof.
  induction cs1 as [|c cs1 IH]; [reflexivity|].
  destruct c; simpl; now rewrite IH.
Qed.

(** X13: a storage double does not keep what is written to it: after any
    sequence of [getItem], [setItem], [removeItem] and [clear] calls,
    [getItem] on the seeded double still answers from the seed alone,
    while the [setItem] spy has recorded every write, in order. *)
Theorem seeded_storage_ignores_writes
    (cartValue : option Json) (cs : list StorageCall) (key : string) :
  completion_of (getItem key) (run_calls cs (seedLocalStorage cartValue)) =
    Normal (seed_getItem cartValue key) /\
  setItem_calls (run_calls cs (seedLocalStorage cartValue)) = writes_of cs.
Proof.
  assert (Hinv : getItem_impl (run_calls cs (seedLocalStorage cartValue)) =
                 seed_getItem cartValue /\
                 setItem_calls (run_calls cs (seedLocalStorage cartValue)) =
                 writes_of cs).
  { induction cs as [|c cs [IHi IHw]] using rev_ind; [now split|].
    rewrite run_calls_snoc, run_call_impl, run_call_writes, writes_of_app.
    now rewrite IHi, IHw. }
  destruct Hinv as [Hi Hw]. split; [|exact Hw].
  unfold completion_of, getItem. simpl. now rewrite Hi.
Qed.



End FixtureFacts.
